(** * samplepath: finite-window flow metrics (spath/metrics.py)

    A shallow embedding of the sample-path integrator
    [compute_sample_path_metrics], of the finite-window driver
    [compute_finite_window_flow_metrics] and of the frequency resolver
    [_resolve_freq], followed by the properties of the specification.

    Conventions of the embedding.
    - A [pd.Timestamp] is its integer count of nanoseconds ([Z]); a
      difference of two timestamps is a [Z] number of nanoseconds.
    - Python integers ([dN], [a], [N], the cumulative counters) are [Z].
    - The floating-point quantities ([dt_h], [A], [L], [Lambda], [w]) live in
      an abstract carrier [F] with the operations the code applies to them
      (class [FloatOps]).  Results that hold for every carrier hold for the
      IEEE doubles of the program; [Q_ops] instantiates the carrier with exact
      rationals in lowest terms for concrete evaluation.
    - [np.nan] is [None] in the [option F] entries of [L], [Lambda] and [w].
    - The integer sequences [N], [Arr] and [Dep] are kept as integers; their
      final conversion by [np.array(..., dtype=float)] is exact and is not
      modelled.
    - A raised exception is the [Raise] outcome. *)

From Stdlib Require Import ZArith QArith List Bool String Ascii Lia.
From Stdlib Require Import Sorting.Sorted Sorting.Permutation.
Import ListNotations.
Open Scope Z_scope.

(** ** Numeric carrier *)

Class FloatOps (F : Type) := {
  fzero : F;                 (* 0.0 *)
  fadd : F -> F -> F;        (* x + y *)
  fmul : F -> F -> F;        (* x * y *)
  fdiv : F -> F -> F;        (* x / y *)
  of_int : Z -> F;           (* implicit int -> float conversion *)
  hours : Z -> F;            (* Timedelta.total_seconds() / 3600.0 *)
  fpos : F -> bool           (* x > 0 *)
}.

(** The only fact about the carrier the sweep relies on: a time difference
    converted to hours is positive exactly when the difference is. *)
Definition hours_sign (F : Type) `{FloatOps F} : Prop :=
  forall d : Z, fpos (hours d) = (0 <? d).

(** Order on the carrier, for the monotonicity of the integrated area. *)
Class FloatOrder (F : Type) `{FloatOps F} := {
  fle : F -> F -> Prop;
  fle_refl : forall x, fle x x;
  fle_trans : forall x y z, fle x y -> fle y z -> fle x z;
  fle_add_area : forall (A : F) (n d : Z),
      0 <= n -> 0 < d -> fle A (fadd A (fmul (of_int n) (hours d)))
}.

(** Exact rationals, kept in lowest terms so that equal values are equal
    terms. *)
Definition ns_per_second : Z := 1000000000.
Definition hour_ns : Z := 3600 * ns_per_second.

#[export] Instance Q_ops : FloatOps Q := {|
  fzero := 0%Q;
  fadd := fun x y => Qred (x + y)%Q;
  fmul := fun x y => Qred (x * y)%Q;
  fdiv := fun x y => Qred (x / y)%Q;
  of_int := inject_Z;
  hours := fun d => Qred (inject_Z d / inject_Z ns_per_second / 3600)%Q;
  fpos := fun x => 0 <? Qnum x
|}.

(** ** Outcomes *)

Inductive exn : Type :=
| IndexError                      (* T[0] on an empty list *)
| ValueError (msg : string)       (* raised by _resolve_freq *)
| PandasError.                    (* raised inside a pandas primitive *)

Inductive outcome (X : Type) : Type :=
| Ok (x : X)
| Raise (e : exn).
Arguments Ok {X} x.
Arguments Raise {X} e.

(** ** Events and sorting *)

(** An event is the tuple [(time, dN, a)]. *)
Definition event : Type := (Z * Z * Z)%type.
Definition ev_time (e : event) : Z := fst (fst e).
Definition ev_dN (e : event) : Z := snd (fst e).
Definition ev_a (e : event) : Z := snd e.

(** [sorted(l, key=key)]: Python's sort is stable; so is insertion from the
    right, which places an element before the first one whose key is not
    smaller. *)
Fixpoint insert_by {X : Type} (key : X -> Z) (x : X) (l : list X) : list X :=
  match l with
  | [] => [x]
  | y :: l' => if key x <=? key y then x :: l else y :: insert_by key x l'
  end.

Definition sorted_by {X : Type} (key : X -> Z) (l : list X) : list X :=
  fold_right (insert_by key) [] l.

Definition sorted (l : list Z) : list Z := sorted_by (fun t => t) l.

(** ** The sample-path integrator *)

Section Integrator.
Context {F : Type} `{FloatOps F}.

(** Running state of the sweep: [N], [A], [cum_arr], [cum_dep], [prev].
    The event index [i] is carried as the list [events[i:]]. *)
Record state : Type := mkState {
  st_N : Z;
  st_A : F;
  st_arr : Z;
  st_dep : Z;
  st_prev : Z
}.

(** One report point: the values appended to the seven output lists. *)
Record row : Type := mkRow {
  r_L : option F;
  r_Lam : option F;
  r_w : option F;
  r_N : Z;
  r_A : F;
  r_Arr : Z;
  r_Dep : Z
}.

(** [dep = a - dN; if dep < 0: dep = 0]. *)
Definition derived_departures (e : event) : Z :=
  let dep := ev_a e - ev_dN e in
  if dep <? 0 then 0 else dep.

(** [A += N * dt_h; prev = t] when [dt_h > 0], for the span [prev .. t]. *)
Definition integrate_to (t : Z) (st : state) : state :=
  let dt_h := hours (t - st_prev st) in
  if fpos dt_h
  then mkState (st_N st)
               (fadd (st_A st) (fmul (of_int (st_N st)) dt_h))
               (st_arr st) (st_dep st) t
  else st.

(** Body of the [while] loop for the event [events[i]]. *)
Definition process_event (st : state) (e : event) : state :=
  let st1 := integrate_to (ev_time e) st in
  mkState (st_N st1 + ev_dN e)
          (st_A st1)
          (st_arr st1 + ev_a e)
          (st_dep st1 + derived_departures e)
          (st_prev st1).

(** [while i < len(events) and events[i][0] <= t: ...] *)
Fixpoint advance (t : Z) (st : state) (evs : list event)
  : state * list event :=
  match evs with
  | [] => (st, [])
  | e :: rest =>
      if ev_time e <=? t then advance t (process_event st e) rest
      else (st, evs)
  end.

(** The metrics reported at [t]. *)
Definition report (t0 t : Z) (st : state) : row :=
  let elapsed_h := hours (t - t0) in
  let L := if fpos elapsed_h then Some (fdiv (st_A st) elapsed_h) else None in
  let Lam := if fpos elapsed_h
             then Some (fdiv (of_int (st_arr st)) elapsed_h) else None in
  let w := if 0 <? st_arr st
           then Some (fdiv (st_A st) (of_int (st_arr st))) else None in
  mkRow L Lam w (st_N st) (st_A st) (st_arr st) (st_dep st).

(** State after the body of [for t in T] for one [t]. *)
Definition observe (t : Z) (st : state) (evs : list event)
  : state * list event :=
  let (st1, evs1) := advance t st evs in
  (integrate_to t st1, evs1).

(** [for t in T: ...], producing the rows in order. *)
Fixpoint sweep (t0 : Z) (st : state) (evs : list event) (T : list Z)
  : list row :=
  match T with
  | [] => []
  | t :: T' =>
      let (st2, evs1) := observe t st evs in
      report t0 t st2 :: sweep t0 st2 evs1 T'
  end.

Definition initial_state (t0 : Z) : state := mkState 0 fzero 0 0 t0.

(** The returned tuple [(T, L, Lambda, w, N, A, Arr, Dep)]. *)
Record sample_path : Type := mkSamplePath {
  sp_T : list Z;
  sp_L : list (option F);
  sp_Lambda : list (option F);
  sp_w : list (option F);
  sp_N : list Z;
  sp_A : list F;
  sp_Arr : list Z;
  sp_Dep : list Z
}.

Definition of_rows (T : list Z) (rows : list row) : sample_path :=
  mkSamplePath T (map r_L rows) (map r_Lam rows) (map r_w rows)
               (map r_N rows) (map r_A rows) (map r_Arr rows)
               (map r_Dep rows).

Definition compute_sample_path_metrics
           (events : list event) (sample_times : list Z)
  : outcome sample_path :=
  match events with
  | [] => Ok (mkSamplePath (sorted sample_times) [] [] [] [] [] [] [])
  | _ :: _ =>
      let events := sorted_by ev_time events in
      let T := sorted sample_times in
      match T with
      | [] => Raise IndexError
      | t0 :: _ => Ok (of_rows T (sweep t0 (initial_state t0) events T))
      end
  end.

End Integrator.

Arguments state F : clear implicits.
Arguments row F : clear implicits.
Arguments sample_path F : clear implicits.

(** Moving an event, or the cursor of a state, by [c] nanoseconds. *)
Definition shift_event (c : Z) (e : event) : event :=
  (ev_time e + c, ev_dN e, ev_a e).

Definition shift_state {F : Type} (c : Z) (st : state F) : state F :=
  mkState (st_N st) (st_A st) (st_arr st) (st_dep st) (st_prev st + c).

(** The concrete scenario of the specification. *)
Definition scenario_events (t0 : Z) : list event :=
  [(t0, 2, 2); (t0 + hour_ns, 1, 1); (t0 + 2 * hour_ns, -3, 0)].
Definition scenario_times (t0 : Z) : list Z :=
  [t0; t0 + hour_ns; t0 + 2 * hour_ns; t0 + 3 * hour_ns].


(** ** Frequency resolution *)

(** [str.strip], [str.lower] and [str.upper] on ASCII strings. *)
Definition is_space (c : ascii) : bool :=
  let n := nat_of_ascii c in
  (((9 <=? n) && (n <=? 13)) || ((28 <=? n) && (n <=? 32)))%nat.

Definition lower_ascii (c : ascii) : ascii :=
  let n := nat_of_ascii c in
  if ((65 <=? n) && (n <=? 90))%nat then ascii_of_nat (n + 32) else c.

Definition upper_ascii (c : ascii) : ascii :=
  let n := nat_of_ascii c in
  if ((97 <=? n) && (n <=? 122))%nat then ascii_of_nat (n - 32) else c.

Fixpoint map_string (f : ascii -> ascii) (s : string) : string :=
  match s with
  | EmptyString => EmptyString
  | String c s' => String (f c) (map_string f s')
  end.

Definition lower : string -> string := map_string lower_ascii.
Definition upper : string -> string := map_string upper_ascii.

Fixpoint lstrip (s : string) : string :=
  match s with
  | EmptyString => EmptyString
  | String c s' => if is_space c then lstrip s' else s
  end.

Fixpoint rstrip (s : string) : string :=
  match s with
  | EmptyString => EmptyString
  | String c s' =>
      match rstrip s' with
      | EmptyString => if is_space c then EmptyString else String c EmptyString
      | r => String c r
      end
  end.

Definition strip (s : string) : string := rstrip (lstrip s).

(** [x in (s1, s2)] on strings. *)
Definition in2 (x s1 s2 : string) : bool := String.eqb x s1 || String.eqb x s2.

Definition unknown_frequency_message (bucket : string) : string :=
  ("Unknown frequency '" ++ bucket ++
   "'. Use pandas alias (e.g., 'D','W-MON','MS','QS-JAN','YS-JAN') " ++
   "or one of {day, week, month, quarter, year}.")%string.



Section Resolve.
(** [pd.tseries.frequencies.to_offset(b)] returns without raising. *)
Variable to_offset_ok : string -> bool.

Definition _resolve_freq (bucket week_anchor quarter_anchor year_anchor : string)
  : outcome string :=
  let b := strip bucket in
  if to_offset_ok b then Ok b
  else
    let bl := lower b in
    if in2 bl "day" "d" then Ok "D"%string
    else if in2 bl "week" "w" then Ok ("W-" ++ upper week_anchor)%string
    else if in2 bl "month" "m" then Ok "MS"%string
    else if in2 bl "quarter" "q" then Ok ("QS-" ++ upper quarter_anchor)%string
    else if in2 bl "year" "y" then Ok ("YS-" ++ upper year_anchor)%string
    else Raise (ValueError (unknown_frequency_message bucket)).
End Resolve.

(** ** The finite-window driver *)

Definition bind {X Y : Type} (c : outcome X) (k : X -> outcome Y) : outcome Y :=
  match c with
  | Ok x => k x
  | Raise e => Raise e
  end.

Notation "x <- c ;; k" := (bind c (fun x => k))
  (at level 61, c at next level, right associativity).

Inductive schedule_mode : Type := EventMode | CalendarMode.

(** [dict.fromkeys(l)]: the keys in order of first occurrence. *)
Fixpoint fromkeys (l : list Z) : list Z :=
  match l with
  | [] => []
  | x :: l' => x :: filter (fun y => negb (y =? x)) (fromkeys l')
  end.

(** [(t, dN, 0 if t < t0 else a)]. *)
Definition prep_event (t0 : Z) (e : event) : event :=
  let '(t, dN, a) := e in (t, dN, if t <? t0 then 0 else a).

Section Driver.
Context {F : Type} `{FloatOps F}.

(** The pandas primitives the driver calls in calendar mode; each may
    raise. *)
Variable to_offset_ok : string -> bool.
Variable floor_ts : Z -> string -> outcome Z.          (* ts.floor(freq) *)
Variable date_range : Z -> Z -> string -> outcome (list Z).
Variable add_offset : Z -> string -> outcome Z.        (* ts + to_offset(freq) *)

Record FlowMetricsResult : Type := mkResult {
  events : list event;
  times : list Z;
  L : list (option F);
  Lambda : list (option F);
  w : list (option F);
  N : list Z;
  A : list F;
  Arrivals : list Z;
  Departures : list Z;
  mode : schedule_mode;
  freq : option string;
  t0 : option Z;                (* None is pd.NaT *)
  tn : option Z
}.

Definition empty_result (m : schedule_mode) (f : option string)
  : FlowMetricsResult :=
  mkResult [] [] [] [] [] [] [] [] [] m f None None.

(** Observation schedule of event mode. *)
Definition event_schedule (ev_times : list Z) (start end_ : option Z)
  : list Z :=
  let window_start := match start with Some s => s | None => hd 0 ev_times end in
  let window_end := match end_ with Some e => e | None => last ev_times 0 end in
  let obs :=
    window_start ::
    filter (fun t => (window_start <? t) && (t <=? window_end)) ev_times in
  let obs :=
    if negb (window_end =? last obs window_start)
    then obs ++ [window_end] else obs in
  sorted (fromkeys obs).

(** Observation schedule of calendar mode, for the resolved frequency. *)
Definition calendar_schedule (ev_times : list Z) (resolved_freq : string)
           (start end_ : option Z) (include_next_boundary : bool)
  : outcome (list Z) :=
  let first_ev := hd 0 ev_times in
  let last_ev := last ev_times 0 in
  start_aligned <-
    floor_ts (match start with Some s => s | None => first_ev end)
             resolved_freq ;;
  end_aligned <-
    floor_ts (match end_ with Some e => e | None => last_ev end)
             resolved_freq ;;
  boundaries <- date_range start_aligned end_aligned resolved_freq ;;
  if include_next_boundary then
    let boundaries :=
      match boundaries with [] => [start_aligned] | _ :: _ => boundaries end in
    next <- add_offset (last boundaries start_aligned) resolved_freq ;;
    Ok (boundaries ++ [next])
  else Ok boundaries.

Definition compute_finite_window_flow_metrics
           (evs : list event) (freq_arg : option string)
           (start end_ : option Z) (include_next_boundary : bool)
           (week_anchor quarter_anchor year_anchor : string)
  : outcome FlowMetricsResult :=
  match evs with
  | [] =>
      Ok (empty_result
            (match freq_arg with None => EventMode | Some _ => CalendarMode end)
            freq_arg)
  | _ :: _ =>
      let events_sorted := sorted_by ev_time evs in
      let ev_times := map ev_time events_sorted in
      sched <-
        match freq_arg with
        | None => Ok (EventMode, None, event_schedule ev_times start end_)
        | Some f =>
            resolved_freq <-
              _resolve_freq to_offset_ok f week_anchor quarter_anchor
                            year_anchor ;;
            obs <- calendar_schedule ev_times resolved_freq start end_
                                      include_next_boundary ;;
            Ok (CalendarMode, Some resolved_freq, obs)
        end ;;
      let '(m, resolved_freq, obs) := sched in
      match obs with
      | [] => Ok (empty_result m resolved_freq)
      | t0 :: _ =>
          let tn := last obs t0 in
          let events_prepped := map (prep_event t0) events_sorted in
          sp <- compute_sample_path_metrics events_prepped obs ;;
          Ok (mkResult events_prepped (sp_T sp) (sp_L sp) (sp_Lambda sp)
                       (sp_w sp) (sp_N sp) (sp_A sp) (sp_Arr sp) (sp_Dep sp)
                       m resolved_freq (Some t0) (Some tn))
      end
  end.

End Driver.

Arguments FlowMetricsResult F : clear implicits.

(** ** Schedule of a driver invocation, and the tabular view *)

Section Schedule.
Variable to_offset_ok : string -> bool.
Variable floor_ts : Z -> string -> outcome Z.
Variable date_range : Z -> Z -> string -> outcome (list Z).
Variable add_offset : Z -> string -> outcome Z.

(** The mode, the resolved frequency and the observation schedule [obs] that
    the driver builds for a non-empty log, written as a relation. *)
Definition scheduled (evs : list event) (freq_arg : option string)
           (start end_ : option Z) (include_next_boundary : bool)
           (week_anchor quarter_anchor year_anchor : string)
           (m : schedule_mode) (rfo : option string) (obs : list Z) : Prop :=
  match freq_arg with
  | None =>
      m = EventMode /\ rfo = None /\
      obs = event_schedule (map ev_time (sorted_by ev_time evs)) start end_
  | Some f =>
      exists rf,
        _resolve_freq to_offset_ok f week_anchor quarter_anchor year_anchor
        = Ok rf /\
        m = CalendarMode /\ rfo = Some rf /\
        calendar_schedule floor_ts date_range add_offset
                          (map ev_time (sorted_by ev_time evs)) rf start end_
                          include_next_boundary = Ok obs
  end.
End Schedule.

(** One line of the table: time, L, Lambda, w, N, A, Arrivals, Departures. *)
Definition table_row (F : Type) : Type :=
  (Z * option F * option F * option F * Z * F * Z * Z)%type.

Record DataFrame (F : Type) : Type := mkDataFrame {
  df_columns : list string;
  df_rows : list (table_row F)
}.
Arguments mkDataFrame {F} _ _.
Arguments df_columns {F} _.
Arguments df_rows {F} _.

Definition same_length {X Y : Type} (l : list X) (l' : list Y) : bool :=
  Nat.eqb (List.length l) (List.length l').

(** [FlowMetricsResult.to_dataframe]: [pd.DataFrame] of the eight columns,
    which raises when their lengths differ. *)
Definition to_dataframe {F : Type} (r : FlowMetricsResult F)
  : outcome (DataFrame F) :=
  if same_length (L r) (times r) && same_length (Lambda r) (times r) &&
     same_length (w r) (times r) && same_length (N r) (times r) &&
     same_length (A r) (times r) && same_length (Arrivals r) (times r) &&
     same_length (Departures r) (times r)
  then
    Ok (mkDataFrame
          ["time"; "L"; "Lambda"; "w"; "N"; "A"; "Arrivals"; "Departures"]%string
          (map (fun '(t, (l, (lam, (w_, (n, (a, (arr, dep))))))) =>
                  (t, l, lam, w_, n, a, arr, dep))
               (combine (times r)
                  (combine (L r)
                     (combine (Lambda r)
                        (combine (w r)
                           (combine (N r)
                              (combine (A r)
                                 (combine (Arrivals r) (Departures r))))))))))
  else Raise (ValueError "All arrays must be of the same length").

(** ** The summary of command-line arguments (spath/file_utils.py)

    The text that [write_cli_args_to_file] builds before it writes it.
    Python values are an abstract type [V]; [render] is [str()] on them,
    [is_suppress] the comparison with [argparse.SUPPRESS], [fill] the call
    [textwrap.fill(text, width=76, subsequent_indent="  ")] and [getattr_]
    the lookup [getattr(args, dest, None)], in which [None] is Python's
    [None]. *)

Fixpoint replicate (n : nat) (c : string) : string :=
  match n with
  | O => EmptyString
  | S n' => (c ++ replicate n' c)%string
  end.

Definition newline : string := String (ascii_of_nat 10) EmptyString.

(** [os.path.join(a, b)] for a [b] that does not start with a separator. *)
Definition path_join_relative (a b : string) : string :=
  if (String.eqb a "" ||
      String.eqb (substring (String.length a - 1) 1 a) "/")%bool
  then (a ++ b)%string
  else (a ++ "/" ++ b)%string.

Section CliSummary.
Variable V : Type.
Variable render : V -> string.
Variable is_suppress : V -> bool.
Variable fill : string -> string.

(** The fields of an [argparse.Action] that the summary reads. *)
Record action : Type := mkAction {
  dest : string;
  option_strings : list string;
  help : option string;
  default : option V
}.

Definition action_name (a : action) : string :=
  match option_strings a with
  | [] => dest a
  | _ :: _ => String.concat ", " (option_strings a)
  end.

Definition render_value (v : option V) : string :=
  match v with
  | Some x => render x
  | None => "None"%string
  end.

(** Body of the loop over [parser._actions] for one action. *)
Definition summary_step (getattr_ : string -> option V)
           (lines : list string) (a : action) : list string :=
  if String.eqb (dest a) "help" then lines
  else
    let name := action_name a in
    let help_text := strip (match help a with Some h => h | None => "" end)%string in
    let default_ :=
      match default a with
      | Some v => if is_suppress v then None else Some v
      | None => None
      end in
    let value := getattr_ (dest a) in
    let lines := lines ++ [name] in
    let lines := lines ++ [replicate (String.length name) "-"] in
    let lines :=
      if negb (String.eqb help_text "")
      then lines ++ [("Help: " ++ fill help_text)%string] else lines in
    let lines :=
      match default_ with
      | Some v => lines ++ [("Default: " ++ render v)%string]
      | None => lines
      end in
    let lines := lines ++ [("Value: " ++ render_value value)%string] in
    lines ++ [""%string].

Definition summary_header : list string :=
  ["Scenario Parameters"; replicate 80 "="; ""]%string.

Definition summary_lines (actions : list action)
           (getattr_ : string -> option V) : list string :=
  fold_left (summary_step getattr_) actions summary_header.

(** [write_cli_args_to_file]: the path written and the text written to
    it. *)
Definition write_cli_args_to_file (actions : list action)
           (getattr_ : string -> option V) (output_path : string)
  : string * string :=
  (path_join_relative output_path "input/cli_args.txt",
   String.concat newline (summary_lines actions getattr_)).

(** The lines that one action contributes. *)
Definition action_block (getattr_ : string -> option V) (a : action)
  : list string :=
  summary_step getattr_ [] a.
End CliSummary.

Arguments dest {V} _.
Arguments option_strings {V} _.
Arguments help {V} _.
Arguments default {V} _.
Arguments mkAction {V} _ _ _ _.

(** ** A minimal calendar

    Concrete stand-ins for the pandas primitives, with the single alias
    ["D"]: boundaries are the multiples of one day. *)

Module DailyGrid.
Definition day_ns : Z := 24 * hour_ns.

Definition to_offset_ok (f : string) : bool := String.eqb f "D".

Definition floor_ts (t : Z) (f : string) : outcome Z :=
  if to_offset_ok f then Ok (day_ns * (t / day_ns)) else Raise PandasError.

Definition grid (s : Z) (n : nat) : list Z :=
  map (fun k => s + day_ns * Z.of_nat k) (seq 0 n).

Definition date_range (s e : Z) (f : string) : outcome (list Z) :=
  if to_offset_ok f
  then Ok (grid s (Z.to_nat ((e - s) / day_ns + 1)))
  else Raise PandasError.

Definition add_offset (t : Z) (f : string) : outcome Z :=
  if to_offset_ok f then Ok (t + day_ns) else Raise PandasError.

(** The driver over this calendar and the rational carrier. *)
Definition driver :=
  compute_finite_window_flow_metrics (F:=Q)
    to_offset_ok floor_ts date_range add_offset.
End DailyGrid.

(** A log with one event before the window that starts at [0]. *)
Definition history_events : list event :=
  [(- hour_ns, 2, 2); (0, 1, 1); (hour_ns, -1, 0)].


(** ** Reference quantities of the specification

    The occupancy and the cumulative counters written as sums over the events
    on or before an instant, against which the sweep is compared. *)

Definition sum_over (f : event -> Z) (l : list event) : Z :=
  fold_right (fun e s => f e + s) 0 l.

Definition upto (t : Z) (l : list event) : list event :=
  filter (fun e => ev_time e <=? t) l.

Definition after (t : Z) (l : list event) : list event :=
  filter (fun e => t <? ev_time e) l.



Definition occupancy_at (evs : list event) (t : Z) : Z :=
  sum_over ev_dN (upto t evs).
Definition arrivals_upto (evs : list event) (t : Z) : Z :=
  sum_over ev_a (upto t evs).
Definition departures_upto (evs : list event) (t : Z) : Z :=
  sum_over derived_departures (upto t evs).


Definition ascending (l : list Z) : Prop := StronglySorted Z.le l.
Definition time_ordered (l : list event) : Prop :=
  StronglySorted (fun x y => ev_time x <= ev_time y) l.

(** What the code reports for [L], [Lambda] and [w] in a row for the time
    [t], given the area and the cumulative arrivals of that row. *)
Definition reported_at {F : Type} `{FloatOps F} (t0 t : Z) (r : row F) : Prop :=
  r_L r = (if fpos (hours (t - t0))
           then Some (fdiv (r_A r) (hours (t - t0))) else None) /\
  r_Lam r = (if fpos (hours (t - t0))
             then Some (fdiv (of_int (r_Arr r)) (hours (t - t0))) else None) /\
  r_w r = (if 0 <? r_Arr r
           then Some (fdiv (r_A r) (of_int (r_Arr r))) else None).





(** Invariant of the sweep over the time-ordered log [all]: it has consumed
    [done] and still holds [rest], [N] is the sum of the consumed jumps, and
    the cursor is not before any consumed event. *)
Definition consumed {F : Type} (all : list event)
           (st : state F) (rest done : list event) : Prop :=
  all = done ++ rest /\
  time_ordered rest /\
  st_N st = sum_over ev_dN done /\
  Forall (fun e => ev_time e <= st_prev st) done.


(** * Properties *)

(** ** Sorting *)

Section SortFacts.
Context {X : Type} (key : X -> Z).

Let key_le (x y : X) : Prop := key x <= key y.

Lemma insert_by_perm (x : X) (l : list X) :
  Permutation (insert_by key x l) (x :: l).
Proof.
  induction l as [|y l IH]; simpl.
  - apply Permutation_refl.
  - destruct (key x <=? key y).
    + apply Permutation_refl.
    + eapply perm_trans; [apply perm_skip, IH | apply perm_swap].
Qed.

Lemma sorted_by_perm (l : list X) : Permutation (sorted_by key l) l.
Proof.
  induction l as [|x l IH]; simpl.
  - constructor.
  - eapply perm_trans; [apply insert_by_perm | now apply perm_skip].
Qed.

Lemma insert_by_sorted (x : X) (l : list X) :
  StronglySorted key_le l -> StronglySorted key_le (insert_by key x l).
Proof.
  induction 1 as [|y l Hs IH Hy]; simpl.
  - repeat constructor.
  - destruct (Z.leb_spec (key x) (key y)) as [Hxy|Hxy].
    + constructor; [now constructor|].
      constructor; [exact Hxy|].
      eapply Forall_impl; [|exact Hy].
      unfold key_le; intros; lia.
    + constructor; [exact IH|].
      eapply Permutation_Forall;
        [apply Permutation_sym, insert_by_perm|].
      constructor; [unfold key_le; lia | exact Hy].
Qed.

Lemma sorted_by_sorted (l : list X) : StronglySorted key_le (sorted_by key l).
Proof.
  induction l as [|x l IH]; simpl.
  - constructor.
  - now apply insert_by_sorted.
Qed.

(** Sorting an already ordered list changes nothing (the sort is stable). *)
Lemma sorted_by_fixpoint (l : list X) :
  StronglySorted key_le l -> sorted_by key l = l.
Proof.
  induction 1 as [|x l Hs IH Hx]; simpl; [reflexivity|].
  rewrite IH.
  destruct Hx as [|y l' Hxy _]; simpl; [reflexivity|].
  unfold key_le in Hxy.
  now rewrite (proj2 (Z.leb_le _ _) Hxy).
Qed.

Lemma sorted_by_nil_iff (l : list X) : sorted_by key l = [] <-> l = [].
Proof.
  split; intros Hl.
  - apply Permutation_nil. rewrite <- Hl.
    apply sorted_by_perm.
  - now subst.
Qed.
End SortFacts.

Lemma sorted_ascending (l : list Z) : ascending (sorted l).
Proof. exact (sorted_by_sorted (fun t => t) l). Qed.

Lemma sorted_of_ascending (l : list Z) : ascending l -> sorted l = l.
Proof. exact (sorted_by_fixpoint (fun t => t) l). Qed.

Lemma sorted_In (l : list Z) (t : Z) : In t (sorted l) <-> In t l.
Proof.
  split; apply Permutation_in;
    [|apply Permutation_sym]; apply sorted_by_perm.
Qed.

Lemma events_sorted_ordered (l : list event) :
  time_ordered (sorted_by ev_time l).
Proof. exact (sorted_by_sorted ev_time l). Qed.

(** ** Sums over the events on or before an instant *)

Lemma sum_over_app (f : event -> Z) (l1 l2 : list event) :
  sum_over f (l1 ++ l2) = sum_over f l1 + sum_over f l2.
Proof. induction l1 as [|e l1 IH]; simpl; [reflexivity | rewrite IH; lia]. Qed.

Lemma sum_over_perm (f : event -> Z) (l1 l2 : list event) :
  Permutation l1 l2 -> sum_over f l1 = sum_over f l2.
Proof. induction 1; simpl; lia. Qed.

Lemma upto_perm (t : Z) (l1 l2 : list event) :
  Permutation l1 l2 -> Permutation (upto t l1) (upto t l2).
Proof.
  unfold upto.
  induction 1 as [|e l1 l2 _ IH|e1 e2 l|l1 l2 l3 _ IH1 _ IH2]; simpl.
  - constructor.
  - destruct (ev_time e <=? t); [now apply perm_skip | exact IH].
  - destruct (ev_time e1 <=? t), (ev_time e2 <=? t);
      try apply Permutation_refl; apply perm_swap.
  - eapply perm_trans; eassumption.
Qed.

Lemma sum_upto_sorted (f : event -> Z) (t : Z) (l : list event) :
  sum_over f (upto t (sorted_by ev_time l)) = sum_over f (upto t l).
Proof. apply sum_over_perm, upto_perm, sorted_by_perm. Qed.

(** Splitting the events on or before [t'] at an earlier instant [t]. *)
Lemma sum_upto_split (f : event -> Z) (t t' : Z) (l : list event) :
  t <= t' ->
  sum_over f (upto t' l) = sum_over f (upto t l) + sum_over f (upto t' (after t l)).
Proof.
  intros Htt'. unfold upto, after.
  induction l as [|e l IH]; simpl; [reflexivity|].
  destruct (Z.leb_spec (ev_time e) t) as [H1|H1];
    destruct (Z.leb_spec (ev_time e) t') as [H2|H2];
    destruct (Z.ltb_spec t (ev_time e)) as [H3|H3];
    try lia; simpl; rewrite ?IH;
    try (destruct (Z.leb_spec (ev_time e) t')); simpl; lia.
Qed.

Lemma upto_none (t : Z) (l : list event) :
  Forall (fun e => t < ev_time e) l -> upto t l = [].
Proof.
  induction 1 as [|e l He _ IH]; simpl; [reflexivity|].
  now rewrite (proj2 (Z.leb_gt _ _) He).
Qed.

Lemma after_all (t : Z) (l : list event) :
  Forall (fun e => t < ev_time e) l -> after t l = l.
Proof.
  induction 1 as [|e l He _ IH]; simpl; [reflexivity|].
  now rewrite (proj2 (Z.ltb_lt _ _) He), IH.
Qed.

Lemma filter_time_ordered (p : event -> bool) (l : list event) :
  time_ordered l -> time_ordered (filter p l).
Proof.
  induction 1 as [|e l _ IH He]; simpl; [constructor|].
  destruct (p e); [|exact IH].
  constructor; [exact IH|].
  rewrite Forall_forall in *. intros x Hx.
  apply filter_In in Hx. now apply He.
Qed.

(** ** The sweep: counters *)

Section SweepCounts.
Context {F : Type} `{FloatOps F}.

Lemma integrate_to_N t (st : state F) : st_N (integrate_to t st) = st_N st.
Proof. unfold integrate_to. now destruct (fpos _). Qed.

Lemma integrate_to_arr t (st : state F) :
  st_arr (integrate_to t st) = st_arr st.
Proof. unfold integrate_to. now destruct (fpos _). Qed.

Lemma integrate_to_dep t (st : state F) :
  st_dep (integrate_to t st) = st_dep st.
Proof. unfold integrate_to. now destruct (fpos _). Qed.

(** On a time-ordered list the [while] loop consumes exactly the events on
    or before [t]. *)
Lemma advance_sorted t (st : state F) (evs : list event) :
  time_ordered evs ->
  advance t st evs = (fold_left process_event (upto t evs) st, after t evs).
Proof.
  intros Hs. revert st.
  induction Hs as [|e rest _ IH He]; intros st; simpl; [reflexivity|].
  destruct (Z.leb_spec (ev_time e) t) as [Hle|Hgt].
  - rewrite (proj2 (Z.ltb_ge _ _) Hle). apply IH.
  - assert (Hall : Forall (fun x => t < ev_time x) rest).
    { eapply Forall_impl; [|exact He]. simpl; intros; lia. }
    rewrite (proj2 (Z.ltb_lt _ _) Hgt).
    fold (upto t rest) (after t rest).
    now rewrite (upto_none _ _ Hall), (after_all _ _ Hall).
Qed.

Lemma fold_process_counts (l : list event) (st : state F) :
  let st' := fold_left process_event l st in
  st_N st' = st_N st + sum_over ev_dN l /\
  st_arr st' = st_arr st + sum_over ev_a l /\
  st_dep st' = st_dep st + sum_over derived_departures l.
Proof.
  revert st. induction l as [|e l IH]; intros st; simpl.
  - repeat split; lia.
  - destruct (IH (process_event st e)) as (HN & Ha & Hd).
    rewrite HN, Ha, Hd. simpl.
    rewrite integrate_to_N, integrate_to_arr, integrate_to_dep.
    repeat split; lia.
Qed.

(** Counters of the state after one observation. *)
Lemma observe_counts t (st : state F) (evs : list event) :
  time_ordered evs ->
  let st' := fst (observe t st evs) in
  snd (observe t st evs) = after t evs /\
  st_N st' = st_N st + sum_over ev_dN (upto t evs) /\
  st_arr st' = st_arr st + sum_over ev_a (upto t evs) /\
  st_dep st' = st_dep st + sum_over derived_departures (upto t evs).
Proof.
  intros Hs. unfold observe. rewrite (advance_sorted _ _ _ Hs). simpl.
  rewrite integrate_to_N, integrate_to_arr, integrate_to_dep.
  split; [reflexivity | apply fold_process_counts].
Qed.

(** Every row of the sweep carries the sums over the events on or before
    its observation time. *)
Lemma sweep_counts (t0 : Z) (T : list Z) :
  ascending T ->
  forall (st : state F) (evs : list event),
    time_ordered evs ->
    let rows := sweep t0 st evs T in
    map r_N rows = map (fun t => st_N st + sum_over ev_dN (upto t evs)) T /\
    map r_Arr rows = map (fun t => st_arr st + sum_over ev_a (upto t evs)) T /\
    map r_Dep rows =
      map (fun t => st_dep st + sum_over derived_departures (upto t evs)) T.
Proof.
  induction 1 as [|t T' _ IH Ht]; intros st evs Hs; simpl.
  - repeat split.
  - destruct (observe_counts t st evs Hs) as (Hrest & HN & Ha & Hd).
    destruct (observe t st evs) as [st2 evs1] eqn:Hobs. simpl in *.
    subst evs1.
    destruct (IH st2 (after t evs) (filter_time_ordered _ _ Hs))
      as (IHN & IHa & IHd).
    rewrite IHN, IHa, IHd, HN, Ha, Hd.
    rewrite Forall_forall in Ht.
    repeat split; f_equal; apply map_ext_in; intros t' Ht';
      rewrite (sum_upto_split _ t t' evs (Ht _ Ht')); lia.
Qed.

Lemma sweep_length (t0 : Z) (T : list Z) (st : state F) (evs : list event) :
  List.length (sweep t0 st evs T) = List.length T.
Proof.
  revert st evs. induction T as [|t T IH]; intros st evs; simpl.
  - reflexivity.
  - destruct (observe t st evs). simpl. now rewrite IH.
Qed.

(** The integrator returns, for a non-empty log and a non-empty list of
    observation times, the occupancy and the cumulative counters of the
    events on or before each sorted observation time. *)
Lemma integrator_counts (evs : list event) (obs : list Z) :
  evs <> [] -> obs <> [] ->
  exists sp,
    compute_sample_path_metrics evs obs = Ok sp /\
    sp_T sp = sorted obs /\
    sp_N sp = map (occupancy_at evs) (sorted obs) /\
    sp_Arr sp = map (arrivals_upto evs) (sorted obs) /\
    sp_Dep sp = map (departures_upto evs) (sorted obs).
Proof.
  intros Hevs Hobs. unfold compute_sample_path_metrics.
  destruct evs as [|e0 evs0]; [congruence|].
  set (evs := e0 :: evs0) in *.
  destruct (sorted obs) as [|t0 T'] eqn:HT.
  { apply sorted_by_nil_iff in HT. congruence. }
  eexists; split; [reflexivity|].
  pose proof (sorted_ascending obs) as Hasc. rewrite HT in Hasc.
  destruct (sweep_counts t0 (t0 :: T') Hasc (initial_state t0)
              (sorted_by ev_time evs) (events_sorted_ordered evs))
    as (HN & Ha & Hd).
  cbv zeta in HN, Ha, Hd.
  unfold of_rows; cbn [sp_T sp_N sp_Arr sp_Dep].
  rewrite HN, Ha, Hd.
  repeat split; apply map_ext; intros t; cbn [initial_state st_N st_arr st_dep];
    unfold occupancy_at, arrivals_upto, departures_upto;
    rewrite sum_upto_sorted; lia.
Qed.
End SweepCounts.

(** ** Last entries *)

Lemma last_cons_default {X : Type} (l : list X) (x d1 d2 : X) :
  last (x :: l) d1 = last (x :: l) d2.
Proof.
  revert x. induction l as [|y l IH]; intros x; [reflexivity|].
  change (last (y :: l) d1 = last (y :: l) d2). apply IH.
Qed.




Lemma last_In {X : Type} (x : X) (l : list X) : In (last (x :: l) x) (x :: l).
Proof.
  revert x. induction l as [|y l IH]; intros x; [now left|].
  right. rewrite (last_cons_default (y :: l) x x y).
  change (In (last (y :: l) y) (y :: l)). apply IH.
Qed.

Lemma ascending_le_last (t : Z) (T : list Z) :
  ascending (t :: T) -> forall x, In x (t :: T) -> x <= last (t :: T) t.
Proof.
  revert t. induction T as [|t2 T IH]; intros t Hasc x Hin.
  - destruct Hin as [->|[]]. simpl. lia.
  - apply StronglySorted_inv in Hasc. destruct Hasc as [Hasc Hall].
    rewrite (last_cons_default (t2 :: T) t t t2).
    change (x <= last (t2 :: T) t2).
    destruct Hin as [->|Hin].
    + pose proof (Forall_inv Hall) as Hle. cbv beta in Hle.
      specialize (IH t2 Hasc t2 (or_introl eq_refl)). lia.
    + now apply IH.
Qed.

(** ** The sweep: integration cursor and area *)

Section SweepArea.
Context {F : Type} `{FloatOps F}.
Hypothesis Hsign : hours_sign F.

Lemma integrate_to_skip t (st : state F) :
  t <= st_prev st -> integrate_to t st = st.
Proof.
  intros Hle. unfold integrate_to. rewrite Hsign.
  now rewrite (proj2 (Z.ltb_ge _ _)) by lia.
Qed.

Lemma integrate_to_prev t (st : state F) :
  st_prev (integrate_to t st) = Z.max (st_prev st) t.
Proof.
  unfold integrate_to. rewrite Hsign.
  destruct (Z.ltb_spec 0 (t - st_prev st)); simpl; lia.
Qed.

Lemma process_event_prev (st : state F) e :
  st_prev (process_event st e) = Z.max (st_prev st) (ev_time e).
Proof. unfold process_event. simpl. apply integrate_to_prev. Qed.

Lemma process_event_skip (st : state F) e :
  ev_time e <= st_prev st ->
  st_A (process_event st e) = st_A st /\
  st_prev (process_event st e) = st_prev st.
Proof.
  intros Hle. unfold process_event. simpl.
  now rewrite (integrate_to_skip _ _ Hle).
Qed.

(** Events on or before the cursor add no area and leave it in place. *)
Lemma advance_skip t (evs : list event) :
  forall st : state F,
    t <= st_prev st ->
    st_A (fst (advance t st evs)) = st_A st /\
    st_prev (fst (advance t st evs)) = st_prev st.
Proof.
  induction evs as [|e rest IH]; intros st Hle; simpl; [now split|].
  destruct (Z.leb_spec (ev_time e) t) as [He|He]; [|now split].
  assert (Hev : ev_time e <= st_prev st) by lia.
  destruct (process_event_skip st e Hev) as (HA & Hp).
  assert (Hle' : t <= st_prev (process_event st e)) by (rewrite Hp; exact Hle).
  destruct (IH (process_event st e) Hle') as (HA' & Hp').
  split; congruence.
Qed.



(** What is left after the loop for [t] starts after [t]. *)
Lemma advance_stop t (evs : list event) :
  forall (st st' : state F),
    advance t st' (snd (advance t st evs)) = (st', snd (advance t st evs)).
Proof.
  induction evs as [|e rest IH]; intros st st'; simpl; [reflexivity|].
  destruct (ev_time e <=? t) eqn:He; [apply IH|].
  simpl. now rewrite He.
Qed.


(** Observing the same instant twice changes nothing the second time. *)
Lemma observe_idem t (st : state F) (evs : list event) :
  observe t (fst (observe t st evs)) (snd (observe t st evs)) =
  observe t st evs.
Proof.
  unfold observe.
  destruct (advance t st evs) as [st1 evs1] eqn:Hadv. simpl.
  assert (Hevs1 : evs1 = snd (advance t st evs)) by now rewrite Hadv.
  rewrite Hevs1, advance_stop, <- Hevs1.
  rewrite integrate_to_skip; [reflexivity|].
  rewrite integrate_to_prev. lia.
Qed.


End SweepArea.

(** ** The integrator: area at the window start and at the window end *)

Section IntegratorArea.
Context {F : Type} `{FloatOps F}.
Hypothesis Hsign : hours_sign F.


(** State of the first observation: no area yet, cursor at [t0]. *)
Lemma observe_start t0 (evs : list event) :
  st_A (fst (observe t0 (initial_state (F:=F) t0) evs)) = fzero /\
  st_prev (fst (observe t0 (initial_state (F:=F) t0) evs)) = t0.
Proof.
  unfold observe.
  destruct (advance_skip Hsign t0 evs (initial_state t0)) as (HA & Hp);
    [simpl; lia|].
  destruct (advance t0 (initial_state t0) evs) as [st1 evs1]. simpl in *.
  rewrite integrate_to_skip by (try exact Hsign; lia).
  now split.
Qed.


End IntegratorArea.

(** ** The rational carrier satisfies the assumptions *)

Lemma Qnum_pos (x : Q) : (0 <? Qnum x) = true <-> (0 < x)%Q.
Proof.
  rewrite Z.ltb_lt. unfold Qlt. simpl. rewrite Z.mul_1_r. reflexivity.
Qed.

Lemma Q_hours_pos (d : Z) :
  (0 < Qred (inject_Z d / inject_Z ns_per_second / 3600))%Q <-> 0 < d.
Proof.
  rewrite Qred_correct.
  unfold Qlt, Qdiv, Qmult, Qinv, inject_Z, ns_per_second. simpl. lia.
Qed.

Lemma Q_hours_sign : hours_sign Q.
Proof.
  intros d.
  change (fpos (hours d))
    with (0 <? Qnum (Qred (inject_Z d / inject_Z ns_per_second / 3600))).
  destruct (Z.ltb_spec 0 d) as [Hd|Hd].
  - apply Qnum_pos. now apply Q_hours_pos.
  - destruct (0 <? Qnum (Qred (inject_Z d / inject_Z ns_per_second / 3600)))
      eqn:Hp; [|reflexivity].
    apply Qnum_pos in Hp. apply (proj1 (Q_hours_pos d)) in Hp. lia.
Qed.

(** ** Properties of the integrator *)

Section IntegratorClaims.
Context {F : Type} `{FloatOps F}.
Hypothesis Hsign : hours_sign F.


(** C10 (no area at the window start).  For every non-empty event list and
    non-empty list of observation times the integrator returns, the first
    reported time is the earliest observation time, and [A] there is
    exactly [0.0]. *)
Theorem area_zero_at_first_observation (evs : list event) (obs : list Z) :
  evs <> [] -> obs <> [] ->
  exists sp t0,
    compute_sample_path_metrics evs obs = Ok sp /\
    hd_error (sp_T sp) = Some t0 /\
    (forall t, In t obs -> t0 <= t) /\
    hd_error (sp_A sp) = Some fzero.
Proof.
  intros Hevs Hobs. unfold compute_sample_path_metrics.
  destruct evs as [|e0 evs0]; [congruence|].
  destruct (sorted obs) as [|t0 T'] eqn:HT.
  { apply sorted_by_nil_iff in HT. congruence. }
  exists (of_rows (t0 :: T')
            (sweep t0 (initial_state t0) (sorted_by ev_time (e0 :: evs0))
                   (t0 :: T'))), t0.
  split; [reflexivity|]. split; [reflexivity|]. split.
  - intros t Ht. apply sorted_In in Ht. rewrite HT in Ht.
    pose proof (sorted_ascending obs) as Hasc. rewrite HT in Hasc.
    apply StronglySorted_inv in Hasc. destruct Hasc as [_ Hle].
    rewrite Forall_forall in Hle.
    destruct Ht as [<-|Ht]; [lia | now apply Hle].
  - cbn [sweep of_rows sp_A].
    pose proof (observe_start Hsign t0 (sorted_by ev_time (e0 :: evs0)))
      as [HA _].
    destruct (observe t0 _ _) as [st2 evs1]. simpl in *. now rewrite HA.
Qed.

(** C5, amended (single-instant window).  For every non-empty event log,
    the integrator run on the single observation instant [t0] returns one
    row with [L] and [Lambda] undefined and [A = 0.0]; if moreover no event
    occurs at or before [t0], then [w] is undefined and the cumulative
    arrivals and departures are [0]. *)
Theorem single_instant_window (evs : list event) (t0 : Z) :
  evs <> [] ->
  exists sp,
    compute_sample_path_metrics evs [t0] = Ok sp /\
    sp_T sp = [t0] /\
    sp_L sp = [None] /\ sp_Lambda sp = [None] /\ sp_A sp = [fzero] /\
    ((forall e, In e evs -> t0 < ev_time e) ->
     sp_w sp = [None] /\ sp_Arr sp = [0] /\ sp_Dep sp = [0]).
Proof.
  intros Hevs.
  destruct (integrator_counts evs [t0] Hevs ltac:(discriminate))
    as (sp & Hsp & HT & _ & HArr & HDep).
  exists sp. split; [exact Hsp|].
  unfold compute_sample_path_metrics in Hsp.
  destruct evs as [|e0 evs0]; [congruence|].
  set (evs := e0 :: evs0) in *.
  change (sorted [t0]) with [t0] in *.
  cbn [sweep] in Hsp.
  pose proof (observe_start Hsign t0 (sorted_by ev_time evs)) as [HA _].
  destruct (observe t0 _ _) as [st2 evs1]. simpl in HA.
  injection Hsp as <-.
  unfold of_rows, report in *. cbn [map sp_T sp_L sp_Lambda sp_A sp_w sp_Arr sp_Dep
                               r_L r_Lam r_A r_w r_Arr r_Dep] in *.
  rewrite Hsign, Z.sub_diag, HA. cbn [Z.ltb Z.compare].
  do 4 (split; [reflexivity|]).
  intros Hafter.
  assert (Hnone : upto t0 evs = []).
  { apply upto_none, Forall_forall. exact Hafter. }
  unfold arrivals_upto, departures_upto in HArr, HDep.
  rewrite Hnone in HArr, HDep. cbn [sum_over fold_right] in HArr, HDep.
  injection HArr as ->. injection HDep as ->. repeat split.
Qed.
End IntegratorClaims.


(** ** Contribution of a single event to the sums *)


Lemma derived_departures_nonneg (e : event) : 0 <= derived_departures e.
Proof. unfold derived_departures. destruct (Z.ltb_spec (ev_a e - ev_dN e) 0); lia. Qed.




(** ** Monotonicity of the cumulative counters *)

Lemma sum_over_nonneg (f : event -> Z) (l : list event) :
  (forall e, In e l -> 0 <= f e) -> 0 <= sum_over f l.
Proof.
  induction l as [|e l IH]; intros Hf; simpl; [lia|].
  pose proof (Hf e (or_introl eq_refl)).
  assert (0 <= sum_over f l) by (apply IH; intros; apply Hf; now right).
  lia.
Qed.

Lemma sum_upto_mono (f : event -> Z) (l : list event) (t t' : Z) :
  (forall e, In e l -> 0 <= f e) ->
  t <= t' -> sum_over f (upto t l) <= sum_over f (upto t' l).
Proof.
  intros Hf Hle. rewrite (sum_upto_split f t t' l Hle).
  assert (0 <= sum_over f (upto t' (after t l))); [|lia].
  apply sum_over_nonneg. intros e He.
  apply filter_In in He. destruct He as [He _].
  apply filter_In in He. now apply Hf.
Qed.

Lemma map_ascending (g : Z -> Z) (T : list Z) :
  (forall t t', t <= t' -> g t <= g t') ->
  ascending T -> ascending (map g T).
Proof.
  intros Hg. induction 1 as [|t T _ IH Ht]; simpl; constructor.
  - exact IH.
  - rewrite Forall_forall in *. intros y Hy.
    apply in_map_iff in Hy. destruct Hy as (x & <- & Hx).
    apply Hg. now apply Ht.
Qed.

(** ** Monotonicity of the integrated area *)

Lemma upto_app_cut (p : Z) (done rest : list event) :
  Forall (fun e => ev_time e <= p) done ->
  Forall (fun e => p < ev_time e) rest ->
  upto p (done ++ rest) = done.
Proof.
  intros Hd Hr. unfold upto. rewrite filter_app.
  fold (upto p rest). rewrite (upto_none _ _ Hr), app_nil_r.
  induction Hd as [|e l He _ IH]; simpl; [reflexivity|].
  now rewrite (proj2 (Z.leb_le _ _) He), IH.
Qed.

Section AreaMonotone.
Context {F : Type} `{FloatOrder F}.
Hypothesis Hsign : hours_sign F.

Variable all : list event.
Hypothesis Hocc : forall t, 0 <= occupancy_at all t.

Let consumed := consumed (F:=F) all.

(** When the cursor is about to move forward, [N] is the occupancy at the
    cursor. *)
Lemma consumed_occupancy (st : state F) (rest done : list event) :
  consumed st rest done ->
  Forall (fun e => st_prev st < ev_time e) rest ->
  0 <= st_N st.
Proof.
  intros (Hall & _ & HN & Hdone) Hrest.
  rewrite HN. specialize (Hocc (st_prev st)).
  unfold occupancy_at in Hocc.
  now rewrite Hall, (upto_app_cut _ _ _ Hdone Hrest) in Hocc.
Qed.

Lemma integrate_to_fle t (st : state F) :
  (st_prev st < t -> 0 <= st_N st) ->
  fle (st_A st) (st_A (integrate_to t st)).
Proof.
  intros HN. unfold integrate_to. rewrite Hsign.
  destruct (Z.ltb_spec 0 (t - st_prev st)) as [Hd|Hd]; simpl.
  - apply fle_add_area; [apply HN|]; lia.
  - apply fle_refl.
Qed.

Lemma advance_fle t (rest : list event) :
  forall (st : state F) (done : list event),
    consumed st rest done ->
    fle (st_A st) (st_A (fst (advance t st rest))) /\
    exists done',
      consumed (fst (advance t st rest)) (snd (advance t st rest)) done' /\
      Forall (fun e => t < ev_time e) (snd (advance t st rest)).
Proof.
  induction rest as [|e rest IH]; intros st done Hc; simpl.
  - split; [apply fle_refl|]. exists done. split; [exact Hc | constructor].
  - destruct Hc as (Hall & Hord & HN & Hdone).
    apply StronglySorted_inv in Hord. destruct Hord as [Hord He].
    destruct (Z.leb_spec (ev_time e) t) as [Hle|Hgt].
    + assert (Hstep : fle (st_A st) (st_A (process_event st e))).
      { unfold process_event. cbn [st_A].
        apply integrate_to_fle. intros Hlt.
        apply (consumed_occupancy st (e :: rest) done).
        - repeat split; try assumption. now constructor.
        - constructor; [exact Hlt|].
          eapply Forall_impl; [|exact He]. cbv beta. intros; lia. }
      destruct (IH (process_event st e) (done ++ [e])) as (Hfle & done' & Hc').
      { repeat split.
        - now rewrite <- app_assoc.
        - exact Hord.
        - unfold process_event. cbn [st_N].
          rewrite (integrate_to_N (ev_time e) st), sum_over_app, HN. simpl. lia.
        - rewrite (process_event_prev Hsign).
          apply Forall_app. split.
          + eapply Forall_impl; [|exact Hdone]. cbv beta. intros; lia.
          + constructor; [lia | constructor]. }
      split; [eapply fle_trans; eassumption|].
      exists done'. exact Hc'.
    + simpl. split; [apply fle_refl|]. exists done. split.
      * repeat split; try assumption. now constructor.
      * constructor; [exact Hgt|].
        eapply Forall_impl; [|exact He]. cbv beta. intros; lia.
Qed.

Lemma observe_fle t (st : state F) (rest done : list event) :
  consumed st rest done ->
  fle (st_A st) (st_A (fst (observe t st rest))) /\
  exists done',
    consumed (fst (observe t st rest)) (snd (observe t st rest)) done'.
Proof.
  intros Hc. unfold observe.
  destruct (advance_fle t rest st done Hc) as (Hfle & done' & Hc' & Hafter).
  destruct (advance t st rest) as [st1 rest1]. simpl in *.
  split.
  - eapply fle_trans; [exact Hfle|].
    apply integrate_to_fle. intros Hlt.
    apply (consumed_occupancy st1 rest1 done' Hc').
    eapply Forall_impl; [|exact Hafter]. cbv beta. intros; lia.
  - exists done'. destruct Hc' as (Hall & Hord & HN & Hdone).
    repeat split; try assumption.
    + now rewrite integrate_to_N.
    + rewrite (integrate_to_prev Hsign).
      eapply Forall_impl; [|exact Hdone]. cbv beta. intros; lia.
Qed.

(** The areas reported by the sweep never decrease, whatever the order of
    the observation times. *)
Lemma sweep_A_sorted (t0 : Z) (T : list Z) :
  forall (st : state F) (rest done : list event),
    consumed st rest done ->
    Forall (fle (st_A st)) (map r_A (sweep t0 st rest T)) /\
    StronglySorted fle (map r_A (sweep t0 st rest T)).
Proof.
  induction T as [|t T IH]; intros st rest done Hc; simpl.
  - split; constructor.
  - destruct (observe_fle t st rest done Hc) as (Hfle & done' & Hc').
    destruct (observe t st rest) as [st2 rest2]. simpl in *.
    destruct (IH st2 rest2 done' Hc') as (Hall & Hsorted).
    split; constructor; try assumption.
    eapply Forall_impl; [|exact Hall].
    intros a Ha. eapply fle_trans; eassumption.
Qed.
End AreaMonotone.

(** C6, amended (monotonicity).  For every integrator run on a non-empty
    log and a non-empty list of observation times in which every event has
    [a - dN >= 0] and [a >= 0], the cumulative arrivals and the cumulative
    departures are non-decreasing over the sorted observation times; the
    area [A] is non-decreasing whenever the occupancy of the log is negative
    at no instant.  The occupancy [N] itself may fall. *)
Theorem cumulative_outputs_monotone {F : Type} `{FloatOrder F}
        (evs : list event) (obs : list Z) :
  hours_sign F ->
  evs <> [] -> obs <> [] ->
  (forall e, In e evs -> 0 <= ev_a e - ev_dN e /\ 0 <= ev_a e) ->
  exists sp : sample_path F,
    compute_sample_path_metrics evs obs = Ok sp /\
    ascending (sp_Arr sp) /\
    ascending (sp_Dep sp) /\
    ((forall t, 0 <= occupancy_at evs t) -> StronglySorted fle (sp_A sp)).
Proof.
  intros Hsign Hevs Hobs Hwf.
  destruct (integrator_counts (F:=F) evs obs Hevs Hobs)
    as (sp & Hsp & HT & _ & HArr & HDep).
  exists sp. split; [exact Hsp|].
  rewrite HArr, HDep. split; [|split].
  - apply map_ascending; [|apply sorted_ascending].
    intros t t' Hle. apply sum_upto_mono; [|exact Hle].
    intros e He. now apply Hwf.
  - apply map_ascending; [|apply sorted_ascending].
    intros t t' Hle. apply sum_upto_mono; [|exact Hle].
    intros e _. apply derived_departures_nonneg.
  - intros Hocc. unfold compute_sample_path_metrics in Hsp.
    destruct evs as [|e0 evs0]; [congruence|].
    destruct (sorted obs) as [|t0 T']; [discriminate|].
    injection Hsp as <-. unfold of_rows. cbn [sp_A].
    refine (proj2 (sweep_A_sorted Hsign (sorted_by ev_time (e0 :: evs0)) _
                     t0 (t0 :: T') (initial_state t0)
                     (sorted_by ev_time (e0 :: evs0)) [] _)).
    + intros t. unfold occupancy_at. rewrite sum_upto_sorted. apply Hocc.
    + repeat split; [apply events_sorted_ordered | constructor].
Qed.

(** The rational carrier is ordered. *)
Lemma Q_add_area (A : Q) (n d : Z) :
  0 <= n -> 0 < d ->
  (A <= Qred (A + Qred (inject_Z n *
                        Qred (inject_Z d / inject_Z ns_per_second / 3600))))%Q.
Proof.
  intros Hn Hd. rewrite !Qred_correct.
  rewrite <- (Qplus_0_r A) at 1.
  apply Qplus_le_compat; [apply Qle_refl|].
  apply Qmult_le_0_compat.
  - change 0%Q with (inject_Z 0). now rewrite <- Zle_Qle.
  - apply Qlt_le_weak. rewrite <- (Qred_correct (_ / _ / _)).
    now apply Q_hours_pos.
Qed.

#[export] Instance Q_order : FloatOrder Q := {|
  fle := Qle;
  fle_refl := Qle_refl;
  fle_trans := Qle_trans;
  fle_add_area := Q_add_area
|}.

(** ** Translation in time

    The integrator only compares timestamps and takes their differences, so
    moving the whole log and the observation times by [c] moves the reported
    times and leaves every metric unchanged. *)

Lemma insert_by_shift {X : Type} (key : X -> Z) (g : X -> X) (c : Z) :
  (forall x, key (g x) = key x + c) ->
  forall x l, insert_by key (g x) (map g l) = map g (insert_by key x l).
Proof.
  intros Hg x l. induction l as [|y l IH]; simpl; [reflexivity|].
  rewrite !Hg.
  destruct (Z.leb_spec (key x) (key y));
    destruct (Z.leb_spec (key x + c) (key y + c)); try lia; simpl.
  - reflexivity.
  - now rewrite IH.
Qed.

Lemma sorted_by_shift {X : Type} (key : X -> Z) (g : X -> X) (c : Z) :
  (forall x, key (g x) = key x + c) ->
  forall l, sorted_by key (map g l) = map g (sorted_by key l).
Proof.
  intros Hg l. induction l as [|x l IH]; simpl; [reflexivity|].
  rewrite IH. now apply (insert_by_shift key g c).
Qed.

Section Translation.
Context {F : Type} `{FloatOps F}.
Variable c : Z.

Lemma integrate_to_shift t (st : state F) :
  integrate_to (t + c) (shift_state c st) = shift_state c (integrate_to t st).
Proof.
  unfold integrate_to, shift_state. cbn [st_prev st_N st_A st_arr st_dep].
  replace (t + c - (st_prev st + c)) with (t - st_prev st) by lia.
  now destruct (fpos (hours (t - st_prev st))).
Qed.

Lemma process_event_shift (st : state F) e :
  process_event (shift_state c st) (shift_event c e) =
  shift_state c (process_event st e).
Proof.
  unfold process_event.
  change (ev_time (shift_event c e)) with (ev_time e + c).
  rewrite integrate_to_shift. reflexivity.
Qed.

Lemma advance_shift t (evs : list event) :
  forall st : state F,
    advance (t + c) (shift_state c st) (map (shift_event c) evs) =
    (shift_state c (fst (advance t st evs)),
     map (shift_event c) (snd (advance t st evs))).
Proof.
  induction evs as [|e rest IH]; intros st; simpl; [reflexivity|].
  change (ev_time (shift_event c e)) with (ev_time e + c).
  destruct (Z.leb_spec (ev_time e) t);
    destruct (Z.leb_spec (ev_time e + c) (t + c)); try lia.
  - rewrite process_event_shift. apply IH.
  - reflexivity.
Qed.

Lemma observe_shift t (st : state F) (evs : list event) :
  observe (t + c) (shift_state c st) (map (shift_event c) evs) =
  (shift_state c (fst (observe t st evs)),
   map (shift_event c) (snd (observe t st evs))).
Proof.
  unfold observe. rewrite advance_shift.
  destruct (advance t st evs) as [st1 evs1]. simpl.
  now rewrite integrate_to_shift.
Qed.

Lemma report_shift t0 t (st : state F) :
  report (t0 + c) (t + c) (shift_state c st) = report t0 t st.
Proof.
  unfold report, shift_state. cbn [st_prev st_N st_A st_arr st_dep].
  now replace (t + c - (t0 + c)) with (t - t0) by lia.
Qed.

Lemma sweep_shift t0 (T : list Z) :
  forall (st : state F) (evs : list event),
    sweep (t0 + c) (shift_state c st) (map (shift_event c) evs)
          (map (fun t => t + c) T) =
    sweep t0 st evs T.
Proof.
  induction T as [|t T IH]; intros st evs; simpl; [reflexivity|].
  rewrite observe_shift.
  destruct (observe t st evs) as [st2 evs1]. simpl.
  now rewrite report_shift, IH.
Qed.

Lemma compute_shift (evs : list event) (obs : list Z) :
  compute_sample_path_metrics (map (shift_event c) evs)
                              (map (fun t => t + c) obs) =
  match compute_sample_path_metrics evs obs with
  | Ok sp =>
      Ok (mkSamplePath (map (fun t => t + c) (sp_T sp)) (sp_L sp)
                       (sp_Lambda sp) (sp_w sp) (sp_N sp) (sp_A sp)
                       (sp_Arr sp) (sp_Dep sp))
  | Raise e => Raise e
  end.
Proof.
  unfold compute_sample_path_metrics, sorted.
  rewrite (sorted_by_shift (fun t => t) (fun t => t + c) c) by reflexivity.
  destruct evs as [|e0 evs0]; [reflexivity|].
  change (map (shift_event c) (e0 :: evs0))
    with (shift_event c e0 :: map (shift_event c) evs0).
  cbv iota beta.
  change (shift_event c e0 :: map (shift_event c) evs0)
    with (map (shift_event c) (e0 :: evs0)).
  rewrite (sorted_by_shift ev_time (shift_event c) c) by reflexivity.
  destruct (sorted_by (fun t => t) obs) as [|t0 T']; [reflexivity|].
  change (map (fun t => t + c) (t0 :: T'))
    with (t0 + c :: map (fun t => t + c) T') at 1.
  cbv iota beta.
  change (t0 + c :: map (fun t => t + c) T')
    with (map (fun t => t + c) (t0 :: T')).
  change (initial_state (t0 + c)) with (shift_state c (initial_state (F:=F) t0)).
  rewrite sweep_shift. reflexivity.
Qed.
End Translation.


(** ** Prepared events *)

Lemma filter_perm (p : event -> bool) (l1 l2 : list event) :
  Permutation l1 l2 -> Permutation (filter p l1) (filter p l2).
Proof.
  induction 1 as [|e l1 l2 _ IH|e1 e2 l|l1 l2 l3 _ IH1 _ IH2]; simpl.
  - constructor.
  - destruct (p e); [now apply perm_skip | exact IH].
  - destruct (p e1), (p e2); try apply Permutation_refl; apply perm_swap.
  - eapply perm_trans; eassumption.
Qed.

Lemma prep_event_time t0 e : ev_time (prep_event t0 e) = ev_time e.
Proof. now destruct e as [[t dN] a]. Qed.

Lemma prep_event_dN t0 e : ev_dN (prep_event t0 e) = ev_dN e.
Proof. now destruct e as [[t dN] a]. Qed.



Lemma prep_events_ordered t0 (l : list event) :
  time_ordered l -> time_ordered (map (prep_event t0) l).
Proof.
  induction 1 as [|e l _ IH He]; simpl; constructor; [exact IH|].
  rewrite Forall_forall in *. intros x Hx.
  apply in_map_iff in Hx. destruct Hx as (y & <- & Hy).
  rewrite !prep_event_time. now apply He.
Qed.

Lemma upto_prep t0 t (l : list event) :
  upto t (map (prep_event t0) l) = map (prep_event t0) (upto t l).
Proof.
  unfold upto. induction l as [|e l IH]; simpl; [reflexivity|].
  rewrite prep_event_time.
  destruct (ev_time e <=? t); simpl; now rewrite IH.
Qed.

(** The occupancy ignores the preparation; the arrivals of the prepared log
    are those of the window [t0 .. t]. *)
Lemma occupancy_prep t0 t (l : list event) :
  occupancy_at (map (prep_event t0) l) t = occupancy_at l t.
Proof.
  unfold occupancy_at. rewrite upto_prep.
  induction (upto t l) as [|e l' IH]; simpl; [reflexivity|].
  now rewrite prep_event_dN, IH.
Qed.




(** ** The driver *)


Lemma event_schedule_ascending ev_times start end_ :
  ascending (event_schedule ev_times start end_).
Proof. unfold event_schedule. apply sorted_ascending. Qed.

Lemma event_schedule_nonempty ev_times start end_ :
  event_schedule ev_times start end_ <> [].
Proof.
  unfold event_schedule. intros Hnil.
  apply sorted_by_nil_iff in Hnil. cbv zeta in Hnil.
  destruct (negb _) in Hnil; discriminate.
Qed.

Section DriverFacts.
Context {F : Type} `{FloatOps F}.
Variable to_offset_ok : string -> bool.
Variable floor_ts : Z -> string -> outcome Z.
Variable date_range : Z -> Z -> string -> outcome (list Z).
Variable add_offset : Z -> string -> outcome Z.

(** Packaging step of the driver on a non-empty schedule. *)
Lemma package_result_sorted (evs_sorted : list event) (w0 : Z) (T' : list Z) :
  evs_sorted <> [] ->
  exists sp : sample_path F,
    compute_sample_path_metrics (map (prep_event w0) evs_sorted) (w0 :: T')
    = Ok sp /\
    sp_T sp = sorted (w0 :: T') /\
    sp_N sp = map (occupancy_at evs_sorted) (sorted (w0 :: T')) /\
    sp_Arr sp =
      map (arrivals_upto (map (prep_event w0) evs_sorted))
          (sorted (w0 :: T')) /\
    sp_Dep sp =
      map (departures_upto (map (prep_event w0) evs_sorted))
          (sorted (w0 :: T')).
Proof.
  intros Hne.
  destruct (integrator_counts (F:=F) (map (prep_event w0) evs_sorted)
                              (w0 :: T'))
    as (sp & Hsp & HT & HN & HArr & HDep).
  { destruct evs_sorted; [congruence | discriminate]. }
  { discriminate. }
  exists sp. repeat split; try assumption.
  rewrite HN. apply map_ext. intros t. apply occupancy_prep.
Qed.

Lemma package_result (evs_sorted : list event) (w0 : Z) (T' : list Z) :
  evs_sorted <> [] ->
  ascending (w0 :: T') ->
  exists sp : sample_path F,
    compute_sample_path_metrics (map (prep_event w0) evs_sorted) (w0 :: T')
    = Ok sp /\
    sp_T sp = w0 :: T' /\
    sp_N sp = map (occupancy_at evs_sorted) (w0 :: T') /\
    sp_Arr sp =
      map (arrivals_upto (map (prep_event w0) evs_sorted)) (w0 :: T') /\
    sp_Dep sp =
      map (departures_upto (map (prep_event w0) evs_sorted)) (w0 :: T').
Proof.
  intros Hne Hasc.
  destruct (package_result_sorted evs_sorted w0 T' Hne) as (sp & Hsp).
  rewrite (sorted_of_ascending _ Hasc) in Hsp. now exists sp.
Qed.


(** What the driver relies on from pandas: [date_range] yields ascending
    boundaries and adding the offset of a frequency does not go back in
    time. *)
Hypothesis date_range_ascending :
  forall s e f l, date_range s e f = Ok l -> ascending l.
Hypothesis add_offset_forward :
  forall t f t', add_offset t f = Ok t' -> t <= t'.


End DriverFacts.

(** ** Prepared events in the result *)

Section DriverPrepared.
Context {F : Type} `{FloatOps F}.
Variable to_offset_ok : string -> bool.
Variable floor_ts : Z -> string -> outcome Z.
Variable date_range : Z -> Z -> string -> outcome (list Z).
Variable add_offset : Z -> string -> outcome Z.

End DriverPrepared.

Section DriverClaims.
Context {F : Type} `{FloatOps F}.
Variable to_offset_ok : string -> bool.
Variable floor_ts : Z -> string -> outcome Z.
Variable date_range : Z -> Z -> string -> outcome (list Z).
Variable add_offset : Z -> string -> outcome Z.

Hypothesis date_range_ascending :
  forall s e f l, date_range s e f = Ok l -> ascending l.
Hypothesis add_offset_forward :
  forall t f t', add_offset t f = Ok t' -> t <= t'.

Let driver := compute_finite_window_flow_metrics
                (F:=F) to_offset_ok floor_ts date_range add_offset.


End DriverClaims.

(** Event mode never raises and always yields a non-empty schedule. *)
Lemma event_mode_returns {F : Type} `{FloatOps F}
      to_offset_ok floor_ts date_range add_offset
      (evs : list event) (start end_ : option Z) (inb : bool) (wa qa ya : string) :
  evs <> [] ->
  exists r : FlowMetricsResult F,
    compute_finite_window_flow_metrics
      to_offset_ok floor_ts date_range add_offset
      evs None start end_ inb wa qa ya = Ok r /\
    times r <> [] /\ mode r = EventMode /\ freq r = None.
Proof.
  intros Hevs. unfold compute_finite_window_flow_metrics.
  destruct evs as [|e0 evs0]; [congruence|].
  cbn [bind].
  set (evs_sorted := sorted_by ev_time (e0 :: evs0)).
  assert (Hne : evs_sorted <> []).
  { intros Hnil. apply sorted_by_nil_iff in Hnil. discriminate. }
  pose proof (event_schedule_ascending (map ev_time evs_sorted) start end_)
    as Hasc.
  pose proof (event_schedule_nonempty (map ev_time evs_sorted) start end_)
    as Hsome.
  destruct (event_schedule (map ev_time evs_sorted) start end_)
    as [|w0 T']; [congruence|].
  destruct (package_result (F:=F) evs_sorted w0 T' Hne Hasc)
    as (sp & Hsp & HT & _).
  rewrite Hsp. cbn [bind]. eexists. split; [reflexivity|].
  cbn [times mode freq]. rewrite HT. repeat split. discriminate.
Qed.

(** ** Frequency resolution *)

Section ResolveClaims.
Context {F : Type} `{FloatOps F}.
Variable to_offset_ok : string -> bool.
Variable floor_ts : Z -> string -> outcome Z.
Variable date_range : Z -> Z -> string -> outcome (list Z).
Variable add_offset : Z -> string -> outcome Z.


End ResolveClaims.

(** ** The minimal calendar satisfies the assumptions on pandas *)




(** ** Instances on concrete inputs *)


Lemma area_zero_at_first_observation_witness :
  exists (sp : sample_path Q) (w0 : Z),
    compute_sample_path_metrics history_events [hour_ns; 0] = Ok sp /\
    hd_error (sp_T sp) = Some w0 /\
    (forall t, In t [hour_ns; 0] -> w0 <= t) /\
    hd_error (sp_A sp) = Some 0%Q.
Proof.
  apply (area_zero_at_first_observation (F:=Q) Q_hours_sign
           history_events [hour_ns; 0]); discriminate.
Defined.

Lemma single_instant_window_witness :
  exists sp : sample_path Q,
    compute_sample_path_metrics [(hour_ns, 1, 1)] [0] = Ok sp /\
    sp_T sp = [0] /\
    sp_L sp = [None] /\ sp_Lambda sp = [None] /\ sp_A sp = [0%Q] /\
    sp_w sp = [None] /\ sp_Arr sp = [0] /\ sp_Dep sp = [0].
Proof.
  destruct (single_instant_window (F:=Q) Q_hours_sign [(hour_ns, 1, 1)] 0)
    as (sp & Hsp & HT & HL & HLam & HA & Hafter).
  - discriminate.
  - exists sp. repeat split; try assumption; apply Hafter;
      intros e [<-|[]]; reflexivity.
Defined.


Lemma scenario_occupancy_nonneg (t : Z) :
  0 <= occupancy_at (scenario_events 0) t.
Proof.
  unfold occupancy_at, upto, scenario_events.
  cbn [filter ev_time fst snd].
  assert (Hh : 0 < hour_ns) by reflexivity.
  repeat match goal with
         | |- context [?a <=? ?b] => destruct (Z.leb_spec a b)
         end;
    unfold sum_over; cbn [fold_right ev_dN fst snd]; lia.
Qed.

Lemma cumulative_outputs_monotone_witness :
  exists sp : sample_path Q,
    compute_sample_path_metrics (scenario_events 0) (scenario_times 0) = Ok sp /\
    ascending (sp_Arr sp) /\
    ascending (sp_Dep sp) /\
    StronglySorted Qle (sp_A sp).
Proof.
  destruct (@cumulative_outputs_monotone Q Q_ops Q_order (scenario_events 0)
              (scenario_times 0) Q_hours_sign)
    as (sp & Hsp & HArr & HDep & HA).
  - discriminate.
  - discriminate.
  - intros e [<-|[<-|[<-|[]]]]; vm_compute; split; discriminate.
  - exists sp. repeat split; try assumption.
    apply HA. exact scenario_occupancy_nonneg.
Defined.





(** ** Inputs on which the specification's wording fails *)



(** C5 as stated fails: an event strictly before the single instant is
    processed there, so the arrivals are not [0] and [w] is defined. *)
Lemma single_instant_counterexample :
  (forall e, In e [(- hour_ns, 1, 1)] -> ev_time e <> 0) /\
  compute_sample_path_metrics (F:=Q) [(- hour_ns, 1, 1)] [0] =
  Ok {| sp_T := [0]; sp_L := [None]; sp_Lambda := [None];
        sp_w := [Some 0%Q]; sp_N := [1]; sp_A := [0%Q];
        sp_Arr := [1]; sp_Dep := [0] |} /\
  [Some 0%Q] <> [@None Q] /\ [1] <> [0].
Proof.
  split; [intros e [<-|[]]; vm_compute; discriminate|].
  repeat split; vm_compute; congruence.
Qed.

(** C6 as stated fails: with [a - dN >= 0] and [a >= 0] for every event,
    neither the occupancy nor the area need be non-decreasing. *)
Lemma monotonicity_counterexample :
  (forall e, In e [(0, 1, 1); (hour_ns, -2, 0)] ->
             0 <= ev_a e - ev_dN e /\ 0 <= ev_a e) /\
  compute_sample_path_metrics (F:=Q) [(0, 1, 1); (hour_ns, -2, 0)]
                              [0; hour_ns; 2 * hour_ns] =
  Ok {| sp_T := [0; hour_ns; 2 * hour_ns];
        sp_L := [None; Some 1%Q; Some 0%Q];
        sp_Lambda := [None; Some 1%Q; Some (1 # 2)%Q];
        sp_w := [Some 0%Q; Some 1%Q; Some 0%Q];
        sp_N := [1; -1; -1];
        sp_A := [0%Q; 1%Q; 0%Q];
        sp_Arr := [1; 1; 1];
        sp_Dep := [0; 2; 2] |} /\
  ~ ascending [1; -1; -1] /\
  ~ StronglySorted Qle [0%Q; 1%Q; 0%Q].
Proof.
  split; [intros e [<-|[<-|[]]]; vm_compute; split; discriminate|].
  split; [vm_compute; reflexivity|]. split.
  - intros Hs. apply StronglySorted_inv in Hs. destruct Hs as [_ Hall].
    apply Forall_inv in Hall. lia.
  - intros Hs. apply StronglySorted_inv in Hs. destruct Hs as [Hs _].
    apply StronglySorted_inv in Hs. destruct Hs as [_ Hall].
    apply Forall_inv in Hall. vm_compute in Hall. congruence.
Qed.


(** * Further properties of the integrator *)

(** ** When the integrator raises, and how its outputs are aligned *)


Lemma compute_alignment {F : Type} `{FloatOps F}
      (evs : list event) (obs : list Z) (sp : sample_path F) :
  compute_sample_path_metrics evs obs = Ok sp ->
  sp_T sp = sorted obs /\ ascending (sp_T sp) /\ Permutation (sp_T sp) obs /\
  (evs <> [] ->
   List.length (sp_L sp) = List.length obs /\
   List.length (sp_Lambda sp) = List.length obs /\
   List.length (sp_w sp) = List.length obs /\
   List.length (sp_N sp) = List.length obs /\
   List.length (sp_A sp) = List.length obs /\
   List.length (sp_Arr sp) = List.length obs /\
   List.length (sp_Dep sp) = List.length obs) /\
  (evs = [] ->
   sp_L sp = [] /\ sp_Lambda sp = [] /\ sp_w sp = [] /\ sp_N sp = [] /\
   sp_A sp = [] /\ sp_Arr sp = [] /\ sp_Dep sp = []).
Proof.
  intros Hsp.
  pose proof (Permutation_length (sorted_by_perm (fun t => t) obs)) as Hlen.
  pose proof (sorted_ascending obs) as Hasc.
  pose proof (sorted_by_perm (fun t => t) obs) as Hperm.
  fold (sorted obs) in Hlen, Hperm.
  unfold compute_sample_path_metrics in Hsp.
  destruct evs as [|e0 evs0].
  - injection Hsp as <-. cbn [sp_T sp_L sp_Lambda sp_w sp_N sp_A sp_Arr sp_Dep].
    repeat split; try congruence; assumption.
  - destruct (sorted obs) as [|w0 T'] eqn:HT; [discriminate|].
    pose proof (sweep_length w0 (w0 :: T') (initial_state (F:=F) w0)
                  (sorted_by ev_time (e0 :: evs0))) as Hrows.
    remember (sweep w0 (initial_state w0) (sorted_by ev_time (e0 :: evs0))
                    (w0 :: T')) as rows eqn:Heq.
    clear Heq. injection Hsp as <-. unfold of_rows.
    cbn [sp_T sp_L sp_Lambda sp_w sp_N sp_A sp_Arr sp_Dep].
    split; [reflexivity|]. split; [exact Hasc|]. split; [exact Hperm|].
    split; [|discriminate]. intros _.
    rewrite !length_map, Hrows.
    repeat split; exact Hlen.
Qed.

(** On a non-empty log the seven output sequences have one entry per
    observation time, and the reported times are the given ones in ascending
    order; on an empty log the times are still returned sorted, with empty
    sequences beside them. *)
Theorem integrator_alignment {F : Type} `{FloatOps F}
        (evs : list event) (obs : list Z) (sp : sample_path F) :
  compute_sample_path_metrics evs obs = Ok sp ->
  sp_T sp = sorted obs /\ ascending (sp_T sp) /\ Permutation (sp_T sp) obs /\
  (evs <> [] ->
   List.length (sp_L sp) = List.length obs /\
   List.length (sp_Lambda sp) = List.length obs /\
   List.length (sp_w sp) = List.length obs /\
   List.length (sp_N sp) = List.length obs /\
   List.length (sp_A sp) = List.length obs /\
   List.length (sp_Arr sp) = List.length obs /\
   List.length (sp_Dep sp) = List.length obs) /\
  (evs = [] ->
   sp_L sp = [] /\ sp_Lambda sp = [] /\ sp_w sp = [] /\ sp_N sp = [] /\
   sp_A sp = [] /\ sp_Arr sp = [] /\ sp_Dep sp = []).
Proof. apply compute_alignment. Qed.

Lemma integrator_alignment_witness :
  compute_sample_path_metrics (F:=Q) history_events [hour_ns; 0; hour_ns] =
  Ok (of_rows (sorted [hour_ns; 0; hour_ns])
              (sweep 0 (initial_state 0) (sorted_by ev_time history_events)
                     (sorted [hour_ns; 0; hour_ns]))) /\
  List.length
    (sp_A (of_rows (sorted [hour_ns; 0; hour_ns])
                   (sweep (F:=Q) 0 (initial_state 0)
                          (sorted_by ev_time history_events)
                          (sorted [hour_ns; 0; hour_ns])))) = 3%nat.
Proof.
  split; [reflexivity|].
  refine (proj1 (proj2 (proj2 (proj2 (proj2 (proj1 (proj2 (proj2 (proj2
            (integrator_alignment (F:=Q) history_events [hour_ns; 0; hour_ns]
               _ eq_refl)))) _)))))).
  discriminate.
Defined.

(** ** Independence of the input order *)

Lemma ascending_perm_eq (l1 l2 : list Z) :
  ascending l1 -> ascending l2 -> Permutation l1 l2 -> l1 = l2.
Proof.
  revert l2. induction l1 as [|x l1 IH]; intros l2 H1 H2 Hp.
  - apply Permutation_nil in Hp. now subst.
  - destruct l2 as [|y l2].
    { apply Permutation_sym, Permutation_nil in Hp. discriminate. }
    apply StronglySorted_inv in H1. destruct H1 as [H1 Hx].
    apply StronglySorted_inv in H2. destruct H2 as [H2 Hy].
    rewrite Forall_forall in Hx, Hy.
    assert (Hxy : x = y).
    { assert (Hyin : In y (x :: l1))
        by (eapply Permutation_in; [apply Permutation_sym, Hp | now left]).
      assert (Hxin : In x (y :: l2))
        by (eapply Permutation_in; [apply Hp | now left]).
      destruct Hyin as [Heq|Hyin]; [exact Heq|].
      destruct Hxin as [Heq|Hxin]; [now symmetry|].
      specialize (Hx _ Hyin). specialize (Hy _ Hxin). lia. }
    subst y. f_equal. apply IH; try assumption.
    now apply Permutation_cons_inv in Hp.
Qed.

Lemma sorted_perm_eq (l1 l2 : list Z) :
  Permutation l1 l2 -> sorted l1 = sorted l2.
Proof.
  intros Hp. apply ascending_perm_eq; try apply sorted_ascending.
  eapply perm_trans; [apply sorted_by_perm|].
  eapply perm_trans; [exact Hp|]. apply Permutation_sym, sorted_by_perm.
Qed.

Lemma time_ordered_app_cut (a b : list event) (e : event) :
  time_ordered (a ++ e :: b) ->
  time_ordered (a ++ b) /\ Forall (fun x => ev_time x <= ev_time e) a.
Proof.
  induction a as [|x a IH]; simpl; intros Hs.
  - apply StronglySorted_inv in Hs. split; [tauto | constructor].
  - apply StronglySorted_inv in Hs. destruct Hs as [Hs Hx].
    destruct (IH Hs) as [Hab Ha]. split.
    + constructor; [exact Hab|].
      rewrite Forall_forall in *. intros y Hy. apply Hx.
      apply in_app_iff in Hy. apply in_app_iff.
      destruct Hy as [Hy|Hy]; [now left | right; now right].
    + constructor; [|exact Ha].
      rewrite Forall_forall in Hx. apply Hx.
      apply in_app_iff. right. now left.
Qed.

Section OrderIndependence.
Context {F : Type} `{FloatOps F}.
Hypothesis Hsign : hours_sign F.

(** Two events at the same instant can be processed in either order. *)
Lemma process_event_swap (st : state F) (e1 e2 : event) :
  ev_time e1 = ev_time e2 ->
  process_event (process_event st e1) e2 =
  process_event (process_event st e2) e1.
Proof.
  intros Ht. unfold process_event. rewrite <- Ht.
  set (st1 := integrate_to (ev_time e1) st).
  assert (Hprev : ev_time e1 <= st_prev st1).
  { unfold st1. rewrite (integrate_to_prev Hsign). lia. }
  cbn [st_N st_A st_arr st_dep st_prev].
  rewrite !(integrate_to_skip Hsign) by (cbn [st_prev]; exact Hprev).
  cbn [st_N st_A st_arr st_dep st_prev]. f_equal; lia.
Qed.

Lemma fold_move_front (a b : list event) (e : event) :
  Forall (fun x => ev_time x = ev_time e) a ->
  forall st : state F,
    fold_left process_event (a ++ e :: b) st =
    fold_left process_event (e :: a ++ b) st.
Proof.
  induction 1 as [|x a Hx _ IH]; intros st; [reflexivity|].
  cbn [app fold_left]. rewrite IH. cbn [fold_left].
  now rewrite (process_event_swap st x e Hx).
Qed.

(** The state reached by processing a time-ordered list depends only on
    which events it holds. *)
Lemma fold_process_perm (l1 : list event) :
  forall l2 : list event,
    time_ordered l1 -> time_ordered l2 -> Permutation l1 l2 ->
    forall st : state F,
      fold_left process_event l1 st = fold_left process_event l2 st.
Proof.
  induction l1 as [|e l1 IH]; intros l2 H1 H2 Hp st.
  - apply Permutation_nil in Hp. now subst.
  - assert (Hin : In e l2) by (eapply Permutation_in; [exact Hp | now left]).
    apply in_split in Hin. destruct Hin as (a & b & ->).
    destruct (time_ordered_app_cut a b e H2) as [Hab Ha].
    apply StronglySorted_inv in H1. destruct H1 as [H1 He].
    apply Permutation_cons_app_inv in Hp.
    rewrite fold_move_front.
    + cbn [fold_left]. now apply IH.
    + rewrite Forall_forall in *. intros x Hx.
      specialize (Ha x Hx).
      assert (Hx1 : In x l1).
      { eapply Permutation_in; [apply Permutation_sym, Hp|].
        apply in_app_iff. now left. }
      specialize (He x Hx1). lia.
Qed.

Lemma sweep_perm (t0 : Z) (T : list Z) :
  forall (st : state F) (r1 r2 : list event),
    time_ordered r1 -> time_ordered r2 -> Permutation r1 r2 ->
    sweep t0 st r1 T = sweep t0 st r2 T.
Proof.
  induction T as [|t T IH]; intros st r1 r2 H1 H2 Hp; [reflexivity|].
  cbn [sweep]. unfold observe.
  rewrite (advance_sorted t st r1 H1), (advance_sorted t st r2 H2).
  rewrite (fold_process_perm (upto t r1) (upto t r2)).
  - f_equal. apply IH; try apply filter_time_ordered; try assumption.
    now apply filter_perm.
  - now apply filter_time_ordered.
  - now apply filter_time_ordered.
  - now apply upto_perm.
Qed.

(** The integrator's result depends only on which events and which
    observation times it is given, not on the order in which they are
    listed. *)
Theorem integrator_order_independent
        (evs1 evs2 : list event) (obs1 obs2 : list Z) :
  Permutation evs1 evs2 -> Permutation obs1 obs2 ->
  compute_sample_path_metrics (F:=F) evs1 obs1 =
  compute_sample_path_metrics evs2 obs2.
Proof.
  intros He Ho. unfold compute_sample_path_metrics.
  rewrite (sorted_perm_eq obs1 obs2 Ho).
  destruct evs1 as [|e1 evs1'].
  - apply Permutation_nil in He. now subst.
  - destruct evs2 as [|e2 evs2'].
    { apply Permutation_sym, Permutation_nil in He. discriminate. }
    destruct (sorted obs2) as [|w0 T']; [reflexivity|].
    do 2 f_equal. apply sweep_perm; try apply events_sorted_ordered.
    eapply perm_trans; [apply sorted_by_perm|].
    eapply perm_trans; [exact He|]. apply Permutation_sym, sorted_by_perm.
Qed.
End OrderIndependence.

Lemma integrator_order_independent_witness :
  compute_sample_path_metrics (F:=Q)
    [(hour_ns, -1, 0); (0, 1, 1); (- hour_ns, 2, 2)] [hour_ns; 0] =
  compute_sample_path_metrics history_events [0; hour_ns].
Proof.
  apply (integrator_order_independent (F:=Q) Q_hours_sign).
  - unfold history_events.
    eapply perm_trans; [apply perm_swap|].
    eapply perm_trans; [apply perm_skip, perm_swap|].
    apply perm_swap.
  - apply perm_swap.
Defined.

(** ** Translation in time, as the caller sees it *)

(** Moving every event and every observation time by the same amount moves
    the reported times by that amount and changes no metric; a run that
    raises still raises. *)
Theorem integrator_translation_invariant {F : Type} `{FloatOps F}
        (c : Z) (evs : list event) (obs : list Z) :
  compute_sample_path_metrics (F:=F) (map (shift_event c) evs)
                              (map (fun t => t + c) obs) =
  match compute_sample_path_metrics evs obs with
  | Ok sp =>
      Ok (mkSamplePath (map (fun t => t + c) (sp_T sp)) (sp_L sp)
                       (sp_Lambda sp) (sp_w sp) (sp_N sp) (sp_A sp)
                       (sp_Arr sp) (sp_Dep sp))
  | Raise e => Raise e
  end.
Proof. apply compute_shift. Qed.


(** ** Rows of the sweep *)

Lemma Forall2_nth_error {X Y : Type} (R : X -> Y -> Prop)
      (l1 : list X) (l2 : list Y) :
  Forall2 R l1 l2 ->
  forall k a, nth_error l1 k = Some a ->
              exists b, nth_error l2 k = Some b /\ R a b.
Proof.
  induction 1 as [|x y l1 l2 Hxy _ IH]; intros k a Hk.
  - destruct k; discriminate.
  - destruct k as [|k]; simpl in *.
    + injection Hk as <-. now exists y.
    + now apply IH.
Qed.

Lemma Forall2_of_map_eq {X Y V : Type} (f : Y -> V) (g : X -> V)
      (l1 : list X) (l2 : list Y) :
  map f l2 = map g l1 -> Forall2 (fun a b => f b = g a) l1 l2.
Proof.
  revert l2. induction l1 as [|x l1 IH]; intros [|y l2] Heq;
    try discriminate; constructor.
  - now injection Heq.
  - apply IH. now injection Heq.
Qed.

Lemma Forall2_conj {X Y : Type} (R1 R2 : X -> Y -> Prop)
      (l1 : list X) (l2 : list Y) :
  Forall2 R1 l1 l2 -> Forall2 R2 l1 l2 ->
  Forall2 (fun a b => R1 a b /\ R2 a b) l1 l2.
Proof.
  induction 1 as [|x y l1 l2 H1 _ IH]; intros H2; inversion H2; subst;
    constructor; auto.
Qed.

Section Rows.
Context {F : Type} `{FloatOps F}.

Lemma sweep_reported (t0 : Z) (T : list Z) :
  forall (st : state F) (evs : list event),
    Forall2 (reported_at t0) T (sweep t0 st evs T).
Proof.
  induction T as [|t T IH]; intros st evs; cbn [sweep]; [constructor|].
  destruct (observe t st evs) as [st2 evs1]. constructor; [|apply IH].
  repeat split.
Qed.

(** Every run on a non-empty log and a non-empty list of observation times
    returns one row per sorted observation time; the row holds the sums over
    the events on or before its time and the metrics computed from them. *)
Lemma compute_rows (evs : list event) (obs : list Z) :
  evs <> [] -> obs <> [] ->
  exists w0 T' rows,
    sorted obs = w0 :: T' /\
    compute_sample_path_metrics (F:=F) evs obs = Ok (of_rows (w0 :: T') rows) /\
    Forall2 (fun t r =>
               reported_at w0 t r /\
               r_N r = occupancy_at evs t /\
               r_Arr r = arrivals_upto evs t /\
               r_Dep r = departures_upto evs t)
            (w0 :: T') rows.
Proof.
  intros Hevs Hobs.
  destruct (integrator_counts (F:=F) evs obs Hevs Hobs)
    as (sp & Hsp & _ & HN & HArr & HDep).
  unfold compute_sample_path_metrics in *.
  destruct evs as [|e0 evs0]; [congruence|].
  destruct (sorted obs) as [|w0 T']; [discriminate|].
  remember (sweep w0 (initial_state w0) (sorted_by ev_time (e0 :: evs0))
                  (w0 :: T')) as rows eqn:Hrows.
  exists w0, T', rows. split; [reflexivity|]. split; [reflexivity|].
  injection Hsp as <-. unfold of_rows in HN, HArr, HDep.
  cbn [sp_N sp_Arr sp_Dep] in HN, HArr, HDep.
  apply Forall2_conj; [rewrite Hrows; apply sweep_reported|].
  apply Forall2_conj; [now apply Forall2_of_map_eq|].
  apply Forall2_conj; now apply Forall2_of_map_eq.
Qed.
End Rows.

(** ** Undefined entries *)

(** On a non-empty log, [L] and [Lambda] are the undefined sentinel exactly
    in the rows whose time is the window start, and [w] is the undefined
    sentinel exactly in the rows whose cumulative arrivals are not
    positive. *)
Theorem undefined_entries {F : Type} `{FloatOps F}
        (evs : list event) (obs : list Z) :
  hours_sign F ->
  evs <> [] -> obs <> [] ->
  exists (sp : sample_path F) (w0 : Z),
    compute_sample_path_metrics evs obs = Ok sp /\
    hd_error (sp_T sp) = Some w0 /\
    forall k t,
      nth_error (sp_T sp) k = Some t ->
      exists l lam w,
        nth_error (sp_L sp) k = Some l /\
        nth_error (sp_Lambda sp) k = Some lam /\
        nth_error (sp_w sp) k = Some w /\
        (l = None <-> t = w0) /\
        (lam = None <-> t = w0) /\
        (w = None <-> arrivals_upto evs t <= 0).
Proof.
  intros Hsign Hevs Hobs.
  destruct (compute_rows (F:=F) evs obs Hevs Hobs)
    as (w0 & T' & rows & HT & Hsp & Hrows).
  exists (of_rows (w0 :: T') rows), w0.
  split; [exact Hsp|]. split; [reflexivity|].
  intros k t Hk. cbn [of_rows sp_T sp_L sp_Lambda sp_w] in *.
  destruct (Forall2_nth_error _ _ _ Hrows k t Hk)
    as (r & Hr & (HL & HLam & Hw) & _ & HArr & _).
  exists (r_L r), (r_Lam r), (r_w r).
  rewrite !nth_error_map, Hr. cbn [option_map].
  do 3 (split; [reflexivity|]).
  assert (Hle : w0 <= t).
  { pose proof (sorted_ascending obs) as Hasc. rewrite HT in Hasc.
    apply nth_error_In in Hk. destruct Hk as [<-|Hk]; [lia|].
    apply StronglySorted_inv in Hasc. destruct Hasc as [_ Hall].
    rewrite Forall_forall in Hall. now apply Hall. }
  rewrite HL, HLam, Hw, Hsign, HArr.
  destruct (Z.ltb_spec 0 (t - w0)); destruct (Z.ltb_spec 0 (arrivals_upto evs t));
    repeat split; intros; try discriminate; try lia; reflexivity.
Qed.

Lemma undefined_entries_witness :
  exists (sp : sample_path Q) (w0 : Z),
    compute_sample_path_metrics (scenario_events 0) (scenario_times 0) = Ok sp /\
    hd_error (sp_T sp) = Some w0 /\
    forall k t,
      nth_error (sp_T sp) k = Some t ->
      exists l lam w,
        nth_error (sp_L sp) k = Some l /\
        nth_error (sp_Lambda sp) k = Some lam /\
        nth_error (sp_w sp) k = Some w /\
        (l = None <-> t = w0) /\
        (lam = None <-> t = w0) /\
        (w = None <-> arrivals_upto (scenario_events 0) t <= 0).
Proof.
  apply (undefined_entries (F:=Q) (scenario_events 0) (scenario_times 0)
           Q_hours_sign); discriminate.
Defined.

(** ** Exact arithmetic: Little's identity and the area as an integral *)















Section AreaIntegral.
Variable w0 : Z.





End AreaIntegral.



(** ** Net flow *)




(** Whatever the log, the cumulative departures are never negative and never
    decrease over the sorted observation times. *)
Theorem departures_never_decrease {F : Type} `{FloatOps F}
        (evs : list event) (obs : list Z) :
  evs <> [] -> obs <> [] ->
  exists sp : sample_path F,
    compute_sample_path_metrics evs obs = Ok sp /\
    ascending (sp_Dep sp) /\
    Forall (fun d => 0 <= d) (sp_Dep sp).
Proof.
  intros Hevs Hobs.
  destruct (integrator_counts (F:=F) evs obs Hevs Hobs)
    as (sp & Hsp & _ & _ & _ & HDep).
  exists sp. split; [exact Hsp|]. rewrite HDep. split.
  - apply map_ascending; [|apply sorted_ascending].
    intros t t' Hle. apply sum_upto_mono; [|exact Hle].
    intros e _. apply derived_departures_nonneg.
  - apply Forall_forall. intros d Hd.
    apply in_map_iff in Hd. destruct Hd as (t & <- & _).
    apply sum_over_nonneg. intros e _. apply derived_departures_nonneg.
Qed.

Lemma departures_never_decrease_witness :
  exists sp : sample_path Q,
    compute_sample_path_metrics [(0, 2, 1); (hour_ns, -1, 0)] [hour_ns; 0]
    = Ok sp /\
    ascending (sp_Dep sp) /\
    Forall (fun d => 0 <= d) (sp_Dep sp).
Proof.
  apply (departures_never_decrease (F:=Q) [(0, 2, 1); (hour_ns, -1, 0)]
           [hour_ns; 0]); discriminate.
Defined.

(** * Further properties of the driver *)

(** ** The table of an aligned result *)

Lemma same_length_true {X Y : Type} (l : list X) (l' : list Y) :
  List.length l = List.length l' -> same_length l l' = true.
Proof. intros Hlen. unfold same_length. rewrite Hlen. apply Nat.eqb_refl. Qed.

Lemma table_projections {F : Type}
      (ts : list Z) (ls lams ws : list (option F)) (ns : list Z)
      (As : list F) (arrs deps : list Z) :
  List.length ls = List.length ts ->
  List.length lams = List.length ts ->
  List.length ws = List.length ts ->
  List.length ns = List.length ts ->
  List.length As = List.length ts ->
  List.length arrs = List.length ts ->
  List.length deps = List.length ts ->
  let rows :=
    map (fun '(t, (l, (lam, (w_, (n, (a, (arr, dep))))))) =>
           ((t, l, lam, w_, n, a, arr, dep) : table_row F))
        (combine ts (combine ls (combine lams (combine ws
           (combine ns (combine As (combine arrs deps))))))) in
  map (fun '(t, _, _, _, _, _, _, _) => t) rows = ts /\
  map (fun '(_, l, _, _, _, _, _, _) => l) rows = ls /\
  map (fun '(_, _, lam, _, _, _, _, _) => lam) rows = lams /\
  map (fun '(_, _, _, w_, _, _, _, _) => w_) rows = ws /\
  map (fun '(_, _, _, _, n, _, _, _) => n) rows = ns /\
  map (fun '(_, _, _, _, _, a, _, _) => a) rows = As /\
  map (fun '(_, _, _, _, _, _, arr, _) => arr) rows = arrs /\
  map (fun '(_, _, _, _, _, _, _, dep) => dep) rows = deps.
Proof.
  revert ls lams ws ns As arrs deps.
  induction ts as [|t ts IH];
    intros [|l ls] [|lam lams] [|w_ ws] [|n ns] [|a As] [|arr arrs] [|dep deps];
    cbn [List.length]; intros H1 H2 H3 H4 H5 H6 H7; try discriminate.
  - cbn. repeat split.
  - destruct (IH ls lams ws ns As arrs deps) as (P1&P2&P3&P4&P5&P6&P7&P8);
      try (now apply eq_add_S).
    cbn [combine map]. cbv zeta in *.
    rewrite P1, P2, P3, P4, P5, P6, P7, P8. repeat split.
Qed.

(** A result whose sequences are aligned with its times has a table. *)
Lemma driver_result_well_formed_aux {F : Type} (r : FlowMetricsResult F) :
  List.length (L r) = List.length (times r) /\
  List.length (Lambda r) = List.length (times r) /\
  List.length (w r) = List.length (times r) /\
  List.length (N r) = List.length (times r) /\
  List.length (A r) = List.length (times r) /\
  List.length (Arrivals r) = List.length (times r) /\
  List.length (Departures r) = List.length (times r) ->
  exists df,
    to_dataframe r = Ok df /\
    df_columns df =
      ["time"; "L"; "Lambda"; "w"; "N"; "A"; "Arrivals"; "Departures"]%string /\
    map (fun '(t, _, _, _, _, _, _, _) => t) (df_rows df) = times r /\
    map (fun '(_, l, _, _, _, _, _, _) => l) (df_rows df) = L r /\
    map (fun '(_, _, lam, _, _, _, _, _) => lam) (df_rows df) = Lambda r /\
    map (fun '(_, _, _, w_, _, _, _, _) => w_) (df_rows df) = w r /\
    map (fun '(_, _, _, _, n, _, _, _) => n) (df_rows df) = N r /\
    map (fun '(_, _, _, _, _, a, _, _) => a) (df_rows df) = A r /\
    map (fun '(_, _, _, _, _, _, arr, _) => arr) (df_rows df) = Arrivals r /\
    map (fun '(_, _, _, _, _, _, _, dep) => dep) (df_rows df) = Departures r.
Proof.
  intros (H1 & H2 & H3 & H4 & H5 & H6 & H7). unfold to_dataframe.
  rewrite !same_length_true by assumption. cbn [andb].
  eexists. split; [reflexivity|]. cbn [df_columns df_rows].
  split; [reflexivity|].
  exact (table_projections (times r) (L r) (Lambda r) (w r) (N r) (A r)
           (Arrivals r) (Departures r) H1 H2 H3 H4 H5 H6 H7).
Qed.


Section DriverShape.
Context {F : Type} `{FloatOps F}.
Variable to_offset_ok : string -> bool.
Variable floor_ts : Z -> string -> outcome Z.
Variable date_range : Z -> Z -> string -> outcome (list Z).
Variable add_offset : Z -> string -> outcome Z.

Let driver := compute_finite_window_flow_metrics
                (F:=F) to_offset_ok floor_ts date_range add_offset.

(** What a returned result of the driver on a non-empty log is made of. *)
Lemma driver_inv evs freq_arg start end_ inb wa qa ya r :
  driver evs freq_arg start end_ inb wa qa ya = Ok r ->
  evs <> [] ->
  exists m rfo obs,
    scheduled to_offset_ok floor_ts date_range add_offset
              evs freq_arg start end_ inb wa qa ya m rfo obs /\
    match obs with
    | [] => r = empty_result m rfo
    | w0 :: _ =>
        exists sp,
          compute_sample_path_metrics
            (map (prep_event w0) (sorted_by ev_time evs)) obs = Ok sp /\
          r = mkResult (map (prep_event w0) (sorted_by ev_time evs))
                       (sp_T sp) (sp_L sp) (sp_Lambda sp) (sp_w sp) (sp_N sp)
                       (sp_A sp) (sp_Arr sp) (sp_Dep sp) m rfo
                       (Some w0) (Some (last obs w0))
    end.
Proof.
  unfold driver, compute_finite_window_flow_metrics, scheduled.
  destruct evs as [|e0 evs0]; [congruence|]. intros Hrun _.
  set (evs_sorted := sorted_by ev_time (e0 :: evs0)) in *.
  assert (Hfin : forall m rfo obs,
             (let '(m, resolved_freq, obs) := (m, rfo, obs) in
              match obs with
              | [] => Ok (empty_result m resolved_freq)
              | w0 :: _ =>
                  let wn := last obs w0 in
                  let events_prepped := map (prep_event w0) evs_sorted in
                  sp <- compute_sample_path_metrics events_prepped obs ;;
                  Ok (mkResult events_prepped (sp_T sp) (sp_L sp)
                               (sp_Lambda sp) (sp_w sp) (sp_N sp) (sp_A sp)
                               (sp_Arr sp) (sp_Dep sp) m resolved_freq
                               (Some w0) (Some wn))
              end) = Ok r ->
             match obs with
             | [] => r = empty_result m rfo
             | w0 :: _ =>
                 exists sp,
                   compute_sample_path_metrics
                     (map (prep_event w0) evs_sorted) obs = Ok sp /\
                   r = mkResult (map (prep_event w0) evs_sorted)
                                (sp_T sp) (sp_L sp) (sp_Lambda sp) (sp_w sp)
                                (sp_N sp) (sp_A sp) (sp_Arr sp) (sp_Dep sp)
                                m rfo (Some w0) (Some (last obs w0))
             end).
  { intros m rfo obs. cbv beta iota zeta.
    destruct obs as [|w0 T']; [now intros [= <-]|].
    destruct (compute_sample_path_metrics _ (w0 :: T')) as [sp|];
      [|discriminate].
    cbn [bind]. intros [= <-]. now exists sp. }
  destruct freq_arg as [f|].
  - unfold bind at 1 in Hrun.
    destruct (_resolve_freq to_offset_ok f wa qa ya) as [rf|] eqn:Hrf;
      [|discriminate].
    unfold bind at 1 in Hrun.
    destruct (calendar_schedule floor_ts date_range add_offset
                (map ev_time evs_sorted) rf start end_ inb)
      as [obs|] eqn:Hobs; [|discriminate].
    cbn [bind] in Hrun. exists CalendarMode, (Some rf), obs.
    split; [now exists rf | now apply Hfin].
  - cbn [bind] in Hrun.
    exists EventMode, None,
      (event_schedule (map ev_time evs_sorted) start end_).
    split; [repeat split | now apply Hfin].
Qed.

(** Whatever the mode and whatever pandas returns, a result of the driver
    is well formed: its times are ascending, its seven sequences have one
    entry per time, its mode tells whether a frequency was given, and its
    window bounds are undefined exactly when there is no time. *)
Theorem driver_result_well_formed evs freq_arg start end_ inb wa qa ya r :
  driver evs freq_arg start end_ inb wa qa ya = Ok r ->
  ascending (times r) /\
  List.length (L r) = List.length (times r) /\
  List.length (Lambda r) = List.length (times r) /\
  List.length (w r) = List.length (times r) /\
  List.length (N r) = List.length (times r) /\
  List.length (A r) = List.length (times r) /\
  List.length (Arrivals r) = List.length (times r) /\
  List.length (Departures r) = List.length (times r) /\
  mode r = match freq_arg with None => EventMode | Some _ => CalendarMode end /\
  (t0 r = None <-> times r = []) /\
  (tn r = None <-> times r = []).
Proof.
  intros Hrun.
  destruct evs as [|e0 evs0].
  { injection Hrun as <-. cbn. repeat split; try constructor; auto. }
  destruct (driver_inv _ _ _ _ _ _ _ _ _ Hrun ltac:(discriminate))
    as (m & rfo & obs & Hsched & Hr).
  assert (Hm : m = match freq_arg with
                   | None => EventMode | Some _ => CalendarMode end).
  { unfold scheduled in Hsched. destruct freq_arg.
    - now destruct Hsched as (rf & _ & -> & _).
    - now destruct Hsched as (-> & _). }
  destruct obs as [|w0 T'].
  - subst r. cbn. rewrite <- Hm. repeat split; try constructor; auto.
  - destruct Hr as (sp & Hsp & ->).
    cbn [times L Lambda w N A Arrivals Departures mode t0 tn].
    destruct (compute_alignment _ _ _ Hsp)
      as (HT & Hasc & Hperm & Hlen & _).
    destruct Hlen as (H1 & H2 & H3 & H4 & H5 & H6 & H7).
    { destruct (sorted_by ev_time (e0 :: evs0)) eqn:Hs; [|discriminate].
      apply sorted_by_nil_iff in Hs. discriminate. }
    assert (Hlen : List.length (sp_T sp) = List.length (w0 :: T'))
      by now apply Permutation_length.
    rewrite Hlen, H1, H2, H3, H4, H5, H6, H7.
    repeat split; try assumption; try discriminate;
      intros Hnil; rewrite Hnil in Hlen; discriminate.
Qed.

(** The table of a driver result never raises: it has the eight named
    columns and one line per observation time, holding the entries of the
    eight sequences at that position. *)
Theorem to_dataframe_of_driver_result
        evs freq_arg start end_ inb wa qa ya r :
  driver evs freq_arg start end_ inb wa qa ya = Ok r ->
  exists df,
    to_dataframe r = Ok df /\
    df_columns df =
      ["time"; "L"; "Lambda"; "w"; "N"; "A"; "Arrivals"; "Departures"]%string /\
    map (fun '(t, _, _, _, _, _, _, _) => t) (df_rows df) = times r /\
    map (fun '(_, l, _, _, _, _, _, _) => l) (df_rows df) = L r /\
    map (fun '(_, _, lam, _, _, _, _, _) => lam) (df_rows df) = Lambda r /\
    map (fun '(_, _, _, w_, _, _, _, _) => w_) (df_rows df) = w r /\
    map (fun '(_, _, _, _, n, _, _, _) => n) (df_rows df) = N r /\
    map (fun '(_, _, _, _, _, a, _, _) => a) (df_rows df) = A r /\
    map (fun '(_, _, _, _, _, _, arr, _) => arr) (df_rows df) = Arrivals r /\
    map (fun '(_, _, _, _, _, _, _, dep) => dep) (df_rows df) = Departures r.
Proof.
  intros Hrun.
  destruct (driver_result_well_formed_aux r) as (df & Hdf); [|now exists df].
  destruct evs as [|e0 evs0].
  { injection Hrun as <-. cbn. repeat split. }
  destruct (driver_inv _ _ _ _ _ _ _ _ _ Hrun ltac:(discriminate))
    as (m & rfo & obs & _ & Hr).
  destruct obs as [|w0 T'].
  - subst r. cbn. repeat split.
  - destruct Hr as (sp & Hsp & ->).
    cbn [times L Lambda w N A Arrivals Departures].
    destruct (compute_alignment _ _ _ Hsp)
      as (HT & _ & Hperm & Hlen & _).
    destruct Hlen as (H1 & H2 & H3 & H4 & H5 & H6 & H7).
    { destruct (sorted_by ev_time (e0 :: evs0)) eqn:Hs; [|discriminate].
      apply sorted_by_nil_iff in Hs. discriminate. }
    assert (Hlen : List.length (sp_T sp) = List.length (w0 :: T'))
      by now apply Permutation_length.
    rewrite Hlen. repeat split; assumption.
Qed.
End DriverShape.

(** ** The event-aligned schedule *)

Lemma fromkeys_In (l : list Z) (t : Z) : In t (fromkeys l) <-> In t l.
Proof.
  induction l as [|x l IH]; simpl; [tauto|].
  rewrite filter_In, IH, negb_true_iff, Z.eqb_neq.
  destruct (Z.eq_dec x t); intuition congruence.
Qed.

Lemma fromkeys_NoDup (l : list Z) : NoDup (fromkeys l).
Proof.
  induction l as [|x l IH]; simpl; constructor.
  - rewrite filter_In, negb_true_iff, Z.eqb_neq. tauto.
  - now apply NoDup_filter.
Qed.

Lemma event_schedule_In (ev_times : list Z) (start end_ : option Z) (t : Z) :
  let ws := match start with Some s => s | None => hd 0 ev_times end in
  let we := match end_ with Some e => e | None => last ev_times 0 end in
  In t (event_schedule ev_times start end_) <->
  t = ws \/ t = we \/ (In t ev_times /\ ws < t <= we).
Proof.
  intros ws we. unfold event_schedule. fold ws we.
  rewrite sorted_In, fromkeys_In.
  set (obs1 := ws :: filter (fun t => (ws <? t) && (t <=? we)) ev_times).
  assert (H1 : In t obs1 <-> t = ws \/ (In t ev_times /\ ws < t <= we)).
  { unfold obs1. simpl. rewrite filter_In, andb_true_iff, Z.ltb_lt, Z.leb_le.
    intuition congruence. }
  destruct (Z.eqb_spec we (last obs1 ws)) as [Heq|Hneq]; cbn [negb].
  - rewrite H1. split; [tauto|].
    intros [Ht|[Ht|Ht]]; [tauto | | tauto].
    apply H1. rewrite Ht, Heq. unfold obs1. apply last_In.
  - rewrite in_app_iff, H1. simpl. intuition congruence.
Qed.

Lemma event_schedule_NoDup (ev_times : list Z) (start end_ : option Z) :
  NoDup (event_schedule ev_times start end_).
Proof.
  unfold event_schedule.
  eapply Permutation_NoDup; [apply Permutation_sym, sorted_by_perm|].
  apply fromkeys_NoDup.
Qed.

(** First and last element of an ascending list with known bounds. *)
Lemma ascending_bounds (x : Z) (l : list Z) (lo hi : Z) :
  ascending (x :: l) ->
  In lo (x :: l) -> In hi (x :: l) ->
  (forall t, In t (x :: l) -> lo <= t <= hi) ->
  x = lo /\ last (x :: l) x = hi.
Proof.
  intros Hasc Hlo Hhi Hb. split.
  - pose proof (Hb x (or_introl eq_refl)).
    destruct Hlo as [Heq|Hlo]; [exact Heq|].
    apply StronglySorted_inv in Hasc. destruct Hasc as [_ Hall].
    rewrite Forall_forall in Hall. specialize (Hall _ Hlo). lia.
  - pose proof (Hb _ (last_In x l)).
    pose proof (ascending_le_last x l Hasc hi Hhi). lia.
Qed.

Lemma time_ordered_times (l : list event) :
  time_ordered l -> ascending (map ev_time l).
Proof.
  induction 1 as [|e l _ IH He]; simpl; constructor; [exact IH|].
  rewrite Forall_forall in *. intros t Ht.
  apply in_map_iff in Ht. destruct Ht as (x & <- & Hx). now apply He.
Qed.

(** Earliest and latest event time of a non-empty log, as the driver reads
    them off the sorted times. *)
Lemma sorted_times_bounds (evs : list event) :
  evs <> [] ->
  let ev_times := map ev_time (sorted_by ev_time evs) in
  (In (hd 0 ev_times) (map ev_time evs) /\
   forall e, In e evs -> hd 0 ev_times <= ev_time e) /\
  (In (last ev_times 0) (map ev_time evs) /\
   forall e, In e evs -> ev_time e <= last ev_times 0).
Proof.
  intros Hne ev_times.
  pose proof (time_ordered_times _ (events_sorted_ordered evs)) as Hasc.
  fold ev_times in Hasc.
  assert (Hperm : Permutation ev_times (map ev_time evs))
    by (apply Permutation_map, sorted_by_perm).
  destruct ev_times as [|x l] eqn:Hev.
  { apply Permutation_nil, map_eq_nil in Hperm. contradiction. }
  rewrite (last_cons_default l x 0 x). cbn [hd].
  split; split.
  - eapply Permutation_in; [exact Hperm | now left].
  - intros e He.
    assert (Hin : In (ev_time e) (x :: l)).
    { eapply Permutation_in; [apply Permutation_sym, Hperm|].
      now apply in_map. }
    destruct Hin as [<-|Hin]; [lia|].
    apply StronglySorted_inv in Hasc. destruct Hasc as [_ Hall].
    rewrite Forall_forall in Hall. now apply Hall.
  - eapply Permutation_in; [exact Hperm | apply last_In].
  - intros e He. apply (ascending_le_last x l Hasc).
    eapply Permutation_in; [apply Permutation_sym, Hperm|].
    now apply in_map.
Qed.

Section EventMode.
Context {F : Type} `{FloatOps F}.
Variable to_offset_ok : string -> bool.
Variable floor_ts : Z -> string -> outcome Z.
Variable date_range : Z -> Z -> string -> outcome (list Z).
Variable add_offset : Z -> string -> outcome Z.

Let driver := compute_finite_window_flow_metrics
                (F:=F) to_offset_ok floor_ts date_range add_offset.

(** The result of an invocation without a frequency. *)
Lemma event_mode_result evs start end_ inb wa qa ya :
  evs <> [] ->
  exists r w0 T',
    driver evs None start end_ inb wa qa ya = Ok r /\
    event_schedule (map ev_time (sorted_by ev_time evs)) start end_ = w0 :: T' /\
    times r = w0 :: T' /\
    t0 r = Some w0 /\ tn r = Some (last (w0 :: T') w0) /\
    mode r = EventMode /\ freq r = None /\
    events r = map (prep_event w0) (sorted_by ev_time evs) /\
    N r = map (occupancy_at evs) (w0 :: T') /\
    Arrivals r = map (arrivals_upto (events r)) (w0 :: T') /\
    Departures r = map (departures_upto (events r)) (w0 :: T').
Proof.
  intros Hevs.
  destruct (event_mode_returns (F:=F) to_offset_ok floor_ts date_range
              add_offset evs start end_ inb wa qa ya Hevs)
    as (r & Hrun & _).
  destruct (driver_inv _ _ _ _ _ _ _ _ _ _ _ _ _ Hrun Hevs)
    as (m & rfo & obs & (-> & -> & Hobs) & Hr).
  pose proof (event_schedule_ascending
                (map ev_time (sorted_by ev_time evs)) start end_) as Hasc.
  pose proof (event_schedule_nonempty
                (map ev_time (sorted_by ev_time evs)) start end_) as Hne.
  rewrite <- Hobs in Hasc, Hne.
  destruct obs as [|w0 T']; [congruence|].
  destruct Hr as (sp & Hsp & ->).
  destruct (package_result (F:=F) (sorted_by ev_time evs) w0 T')
    as (sp' & Hsp' & HT & HN & HArr & HDep); [|exact Hasc|].
  { intros Hnil. apply sorted_by_nil_iff in Hnil. contradiction. }
  rewrite Hsp in Hsp'. injection Hsp' as <-.
  eexists; exists w0, T'. split; [exact Hrun|].
  cbn [times t0 tn mode freq events N Arrivals Departures].
  rewrite HT, HN, HArr, HDep. repeat split; try (now symmetry).
  apply map_ext. intros t. unfold occupancy_at. apply sum_upto_sorted.
Qed.

(** Without a frequency the driver always returns.  Its observation times
    are ascending and free of duplicates, and they are the window start
    [ws], the window end [we] and the event times in between, where [ws]
    is the [start] override or else the earliest event time and [we] the
    [end] override or else the latest; the window reported is the smaller
    and the larger of the two. *)
Theorem event_mode_schedule evs start end_ inb wa qa ya :
  evs <> [] ->
  exists r ws we,
    driver evs None start end_ inb wa qa ya = Ok r /\
    match start with
    | Some s => ws = s
    | None => In ws (map ev_time evs) /\ forall e, In e evs -> ws <= ev_time e
    end /\
    match end_ with
    | Some e' => we = e'
    | None => In we (map ev_time evs) /\ forall e, In e evs -> ev_time e <= we
    end /\
    mode r = EventMode /\ freq r = None /\
    ascending (times r) /\ NoDup (times r) /\
    (forall t, In t (times r) <->
               t = ws \/ t = we \/ (In t (map ev_time evs) /\ ws < t <= we)) /\
    t0 r = Some (Z.min ws we) /\ tn r = Some (Z.max ws we).
Proof.
  intros Hevs.
  destruct (event_mode_result evs start end_ inb wa qa ya Hevs)
    as (r & w0 & T' & Hrun & Hsched & HT & Ht0 & Htn & Hm & Hf & _).
  set (ev_times := map ev_time (sorted_by ev_time evs)) in *.
  set (ws := match start with Some s => s | None => hd 0 ev_times end).
  set (we := match end_ with Some e => e | None => last ev_times 0 end).
  destruct (sorted_times_bounds evs Hevs) as [Hhd Hlast].
  fold ev_times in Hhd, Hlast.
  assert (Hin : forall t, In t (w0 :: T') <->
                          t = ws \/ t = we \/
                          (In t (map ev_time evs) /\ ws < t <= we)).
  { intros t. rewrite <- Hsched.
    rewrite (event_schedule_In ev_times start end_ t). fold ws we.
    assert (Hmem : In t ev_times <-> In t (map ev_time evs)).
    { split; apply Permutation_in;
        [|apply Permutation_sym]; apply Permutation_map, sorted_by_perm. }
    now rewrite Hmem. }
  pose proof (event_schedule_ascending ev_times start end_) as Hasc.
  pose proof (event_schedule_NoDup ev_times start end_) as Hnd.
  rewrite Hsched in Hasc, Hnd.
  destruct (ascending_bounds w0 T' (Z.min ws we) (Z.max ws we) Hasc)
    as [Hw0 Hwn].
  { apply Hin. destruct (Z.min_spec ws we) as [[_ ->]|[_ ->]]; tauto. }
  { apply Hin. destruct (Z.max_spec ws we) as [[_ ->]|[_ ->]]; tauto. }
  { intros t Ht. apply Hin in Ht. lia. }
  exists r, ws, we. rewrite HT, Ht0, Htn, Hwn.
  split; [exact Hrun|].
  split; [unfold ws; destruct start; [reflexivity | exact Hhd]|].
  split; [unfold we; destruct end_; [reflexivity | exact Hlast]|].
  split; [exact Hm|]. split; [exact Hf|]. split; [exact Hasc|].
  split; [exact Hnd|]. split; [exact Hin|].
  split; [now rewrite Hw0 | reflexivity].
Qed.

End EventMode.

(** ** Calendar mode *)


Section CalendarMode.
Context {F : Type} `{FloatOps F}.
Variable to_offset_ok : string -> bool.
Variable floor_ts : Z -> string -> outcome Z.
Variable date_range : Z -> Z -> string -> outcome (list Z).
Variable add_offset : Z -> string -> outcome Z.

Let driver := compute_finite_window_flow_metrics
                (F:=F) to_offset_ok floor_ts date_range add_offset.


(** With a frequency the result is marked as calendar mode; it carries the
    resolved alias when the log is non-empty, but the frequency as given,
    unresolved and unchecked, when the log is empty. *)
Theorem calendar_mode_frequency evs f start end_ inb wa qa ya r :
  driver evs (Some f) start end_ inb wa qa ya = Ok r ->
  mode r = CalendarMode /\
  (evs = [] -> freq r = Some f) /\
  (evs <> [] ->
   exists rf, _resolve_freq to_offset_ok f wa qa ya = Ok rf /\
              freq r = Some rf).
Proof.
  intros Hrun. destruct evs as [|e0 evs0].
  - injection Hrun as <-. cbn. repeat split. congruence.
  - destruct (driver_inv _ _ _ _ _ _ _ _ _ _ _ _ _ Hrun ltac:(discriminate))
      as (m & rfo & obs & (rf & Hrf & -> & -> & _) & Hr).
    assert (Hmf : mode r = CalendarMode /\ freq r = Some rf).
    { destruct obs as [|w0 T']; [now subst r|].
      now destruct Hr as (sp & _ & ->). }
    destruct Hmf as [Hm Hf]. split; [exact Hm|].
    split; [discriminate|]. intros _. now exists rf.
Qed.

End CalendarMode.

(** ** Counters of the driver in terms of the given log *)



(** ** The driver on concrete inputs *)

Lemma driver_result_well_formed_witness :
  exists r : FlowMetricsResult Q,
    DailyGrid.driver history_events (Some "day"%string) None None true
                     "SUN"%string "JAN"%string "JAN"%string = Ok r /\
    ascending (times r) /\
    List.length (L r) = List.length (times r) /\
    List.length (Lambda r) = List.length (times r) /\
    List.length (w r) = List.length (times r) /\
    List.length (N r) = List.length (times r) /\
    List.length (A r) = List.length (times r) /\
    List.length (Arrivals r) = List.length (times r) /\
    List.length (Departures r) = List.length (times r) /\
    mode r = CalendarMode /\
    (t0 r = None <-> times r = []) /\
    (tn r = None <-> times r = []).
Proof.
  destruct (DailyGrid.driver history_events (Some "day"%string) None None
              true "SUN"%string "JAN"%string "JAN"%string)
    as [r|] eqn:Hrun; [|vm_compute in Hrun; discriminate].
  exists r. split; [reflexivity|].
  exact (driver_result_well_formed (F:=Q) DailyGrid.to_offset_ok
           DailyGrid.floor_ts DailyGrid.date_range DailyGrid.add_offset
           history_events (Some "day"%string) None None true
           "SUN"%string "JAN"%string "JAN"%string r Hrun).
Defined.

Lemma to_dataframe_of_driver_result_witness :
  exists (r : FlowMetricsResult Q) (df : DataFrame Q),
    DailyGrid.driver history_events None (Some 0) None false
                     "SUN"%string "JAN"%string "JAN"%string = Ok r /\
    to_dataframe r = Ok df /\
    df_columns df =
      ["time"; "L"; "Lambda"; "w"; "N"; "A"; "Arrivals"; "Departures"]%string /\
    map (fun '(t, _, _, _, _, _, _, _) => t) (df_rows df) = times r /\
    map (fun '(_, l, _, _, _, _, _, _) => l) (df_rows df) = L r /\
    map (fun '(_, _, lam, _, _, _, _, _) => lam) (df_rows df) = Lambda r /\
    map (fun '(_, _, _, w_, _, _, _, _) => w_) (df_rows df) = w r /\
    map (fun '(_, _, _, _, n, _, _, _) => n) (df_rows df) = N r /\
    map (fun '(_, _, _, _, _, a, _, _) => a) (df_rows df) = A r /\
    map (fun '(_, _, _, _, _, _, arr, _) => arr) (df_rows df) = Arrivals r /\
    map (fun '(_, _, _, _, _, _, _, dep) => dep) (df_rows df) = Departures r.
Proof.
  destruct (DailyGrid.driver history_events None (Some 0) None false
              "SUN"%string "JAN"%string "JAN"%string)
    as [r|] eqn:Hrun; [|vm_compute in Hrun; discriminate].
  destruct (to_dataframe_of_driver_result (F:=Q) DailyGrid.to_offset_ok
              DailyGrid.floor_ts DailyGrid.date_range DailyGrid.add_offset
              history_events None (Some 0) None false
              "SUN"%string "JAN"%string "JAN"%string r Hrun)
    as (df & Hdf).
  exists r, df. split; [reflexivity | exact Hdf].
Defined.

Lemma event_mode_schedule_witness :
  exists (r : FlowMetricsResult Q) (ws we : Z),
    DailyGrid.driver history_events None None (Some 0) false
                     "SUN"%string "JAN"%string "JAN"%string = Ok r /\
    (In ws (map ev_time history_events) /\
     forall e, In e history_events -> ws <= ev_time e) /\
    we = 0 /\
    mode r = EventMode /\ freq r = None /\
    ascending (times r) /\ NoDup (times r) /\
    (forall t, In t (times r) <->
               t = ws \/ t = we \/
               (In t (map ev_time history_events) /\ ws < t <= we)) /\
    t0 r = Some (Z.min ws we) /\ tn r = Some (Z.max ws we).
Proof.
  apply (event_mode_schedule (F:=Q) DailyGrid.to_offset_ok DailyGrid.floor_ts
           DailyGrid.date_range DailyGrid.add_offset history_events
           None (Some 0) false "SUN"%string "JAN"%string "JAN"%string).
  discriminate.
Defined.


Lemma calendar_mode_frequency_witness :
  exists r : FlowMetricsResult Q,
    DailyGrid.driver history_events (Some " Day "%string) None None false
                     "SUN"%string "JAN"%string "JAN"%string = Ok r /\
    mode r = CalendarMode /\
    (history_events = [] -> freq r = Some " Day "%string) /\
    (history_events <> [] ->
     exists rf,
       _resolve_freq DailyGrid.to_offset_ok " Day "
                     "SUN" "JAN" "JAN" = Ok rf /\
       freq r = Some rf).
Proof.
  destruct (DailyGrid.driver history_events (Some " Day "%string) None None
              false "SUN"%string "JAN"%string "JAN"%string)
    as [r|] eqn:Hrun; [|vm_compute in Hrun; discriminate].
  exists r. split; [reflexivity|].
  exact (calendar_mode_frequency (F:=Q) DailyGrid.to_offset_ok
           DailyGrid.floor_ts DailyGrid.date_range DailyGrid.add_offset
           history_events " Day "%string None None false
           "SUN"%string "JAN"%string "JAN"%string r Hrun).
Defined.



(** ** Events after the last observation time *)

Lemma upto_upto (t tn : Z) (l : list event) :
  t <= tn -> upto t (upto tn l) = upto t l.
Proof.
  intros Hle. unfold upto. induction l as [|e l IH]; simpl; [reflexivity|].
  destruct (Z.leb_spec (ev_time e) tn); destruct (Z.leb_spec (ev_time e) t);
    simpl; try lia;
    try (destruct (Z.leb_spec (ev_time e) t); try lia); now rewrite IH.
Qed.

Lemma upto_after (t tn : Z) (l : list event) :
  upto tn (after t l) = after t (upto tn l).
Proof.
  unfold upto, after. induction l as [|e l IH]; simpl; [reflexivity|].
  destruct (Z.ltb_spec t (ev_time e)); destruct (Z.leb_spec (ev_time e) tn);
    simpl;
    try (destruct (Z.ltb_spec t (ev_time e)); try lia);
    try (destruct (Z.leb_spec (ev_time e) tn); try lia);
    now rewrite IH.
Qed.

Section Causality.
Context {F : Type} `{FloatOps F}.
Hypothesis Hsign : hours_sign F.

Lemma sweep_upto (t0 tn : Z) (T : list Z) :
  Forall (fun t => t <= tn) T ->
  forall (st : state F) (r1 r2 : list event),
    time_ordered r1 -> time_ordered r2 ->
    Permutation (upto tn r1) (upto tn r2) ->
    sweep t0 st r1 T = sweep t0 st r2 T.
Proof.
  induction 1 as [|t T Ht _ IH]; intros st r1 r2 H1 H2 Hp; [reflexivity|].
  cbn [sweep]. unfold observe.
  rewrite (advance_sorted t st r1 H1), (advance_sorted t st r2 H2).
  rewrite (fold_process_perm Hsign (upto t r1) (upto t r2)).
  - f_equal. apply IH; try apply filter_time_ordered; try assumption.
    rewrite !upto_after. now apply filter_perm.
  - now apply filter_time_ordered.
  - now apply filter_time_ordered.
  - rewrite <- (upto_upto t tn r1 Ht), <- (upto_upto t tn r2 Ht).
    now apply upto_perm.
Qed.

(** The result depends only on the events on or before the last observation
    time: two non-empty logs that hold the same events up to an instant
    [tn] give the same result on observation times that do not exceed
    [tn]. *)
Theorem integrator_ignores_later_events
        (evs1 evs2 : list event) (obs : list Z) (tn : Z) :
  evs1 <> [] -> evs2 <> [] ->
  (forall t, In t obs -> t <= tn) ->
  Permutation (upto tn evs1) (upto tn evs2) ->
  compute_sample_path_metrics (F:=F) evs1 obs =
  compute_sample_path_metrics evs2 obs.
Proof.
  intros H1 H2 Hobs Hp. unfold compute_sample_path_metrics.
  destruct evs1 as [|e1 evs1']; [congruence|].
  destruct evs2 as [|e2 evs2']; [congruence|].
  destruct (sorted obs) as [|w0 T'] eqn:HT; [reflexivity|].
  do 2 f_equal. apply (sweep_upto w0 tn).
  - apply Forall_forall. intros t Ht. apply Hobs.
    apply sorted_In. rewrite HT. exact Ht.
  - apply events_sorted_ordered.
  - apply events_sorted_ordered.
  - eapply perm_trans; [apply upto_perm, sorted_by_perm|].
    eapply perm_trans; [exact Hp|].
    apply Permutation_sym, upto_perm, sorted_by_perm.
Qed.
End Causality.

Lemma integrator_ignores_later_events_witness :
  compute_sample_path_metrics (F:=Q)
    (history_events ++ [(2 * hour_ns, 5, 5)]) [0; hour_ns] =
  compute_sample_path_metrics history_events [0; hour_ns].
Proof.
  apply (integrator_ignores_later_events (F:=Q) Q_hours_sign
           (history_events ++ [(2 * hour_ns, 5, 5)]) history_events
           [0; hour_ns] hour_ns).
  - discriminate.
  - discriminate.
  - intros t [<-|[<-|[]]]; vm_compute; discriminate.
  - vm_compute. apply Permutation_refl.
Defined.

(** * Further properties of the frequency resolution *)


(** * Properties of the command-line summary *)

Section CliSummaryFacts.
Variable V : Type.
Variable render : V -> string.
Variable is_suppress : V -> bool.
Variable fill : string -> string.
Variable getattr_ : string -> option V.

Let step := summary_step V render is_suppress fill getattr_.
Let block := action_block V render is_suppress fill getattr_.
Let shown (a : action V) : bool := negb (String.eqb (dest a) "help").

(** What an action appends does not depend on the lines before it. *)
Lemma summary_step_app (lines : list string) (a : action V) :
  step lines a = lines ++ block a.
Proof.
  unfold step, block, action_block, summary_step.
  destruct (String.eqb (dest a) "help"); [now rewrite app_nil_r|].
  cbv zeta.
  destruct (negb (String.eqb (strip _) "")),
    (match default a with
     | Some v => if is_suppress v then None else Some v
     | None => None
     end);
    cbn [app]; rewrite <- ?app_assoc; reflexivity.
Qed.

Lemma fold_summary_step (actions : list (action V)) :
  forall lines,
    fold_left step actions lines =
    lines ++ List.concat (map block (filter shown actions)).
Proof.
  induction actions as [|a actions IH]; intros lines; cbn [fold_left].
  - cbn. now rewrite app_nil_r.
  - rewrite IH, summary_step_app. cbn [filter]. unfold shown at 2.
    destruct (String.eqb (dest a) "help") eqn:Hhelp; cbn [negb].
    + unfold block, action_block, summary_step. rewrite Hhelp.
      now rewrite app_nil_r.
    + cbn [map List.concat]. now rewrite app_assoc.
Qed.

(** The summary is the three-line header followed, in the order of the
    parser's actions, by the lines of each action other than the built-in
    help flag; the lines of an action do not depend on the other actions. *)
Theorem summary_lines_blocks (actions : list (action V)) :
  summary_lines V render is_suppress fill actions getattr_ =
  summary_header ++
  List.concat (map (action_block V render is_suppress fill getattr_)
              (filter (fun a => negb (String.eqb (dest a) "help")) actions)).
Proof. unfold summary_lines. apply fold_summary_step. Qed.

Lemma action_block_length (a : action V) :
  shown a = true ->
  (4 <= List.length (block a) <= 6)%nat.
Proof.
  unfold shown, block, action_block, summary_step.
  destruct (String.eqb (dest a) "help"); [discriminate|]. intros _.
  cbv zeta.
  destruct (negb (String.eqb (strip _) "")),
    (match default a with
     | Some v => if is_suppress v then None else Some v
     | None => None
     end); cbn; lia.
Qed.

(** Every action other than the help flag takes between four and six lines
    (name, underline, optional help, optional default, value, blank), so
    with [k] such actions the summary has between [3 + 4 k] and [3 + 6 k]
    lines. *)
Theorem summary_line_count (actions : list (action V)) :
  let k := List.length
             (filter (fun a => negb (String.eqb (dest a) "help")) actions) in
  (3 + 4 * k <=
   List.length (summary_lines V render is_suppress fill actions getattr_) <=
   3 + 6 * k)%nat.
Proof.
  cbv zeta. unfold summary_lines. rewrite fold_summary_step.
  rewrite length_app. change (List.length summary_header) with 3%nat.
  fold shown.
  assert (Hall : Forall (fun a => shown a = true) (filter shown actions)).
  { apply Forall_forall. intros a Ha. now apply filter_In in Ha. }
  induction Hall as [|a l Ha _ IH]; cbn [map List.concat List.length].
  - lia.
  - rewrite length_app. pose proof (action_block_length a Ha). lia.
Qed.
End CliSummaryFacts.

(** * Native aliases are stable *)







(** * Repeated observation times *)

Lemma nth_error_skipn_cons {X : Type} (l : list X) (i : nat) (x : X) :
  nth_error l i = Some x -> exists l2, skipn i l = x :: l2.
Proof.
  revert l. induction i as [|i IH]; intros [|y l] Hi; try discriminate.
  - cbn in Hi. injection Hi as ->. now eexists.
  - cbn in *. now apply IH.
Qed.

Lemma nth_error_plus_skipn {X : Type} (l : list X) (i k : nat) :
  nth_error l (i + k) = nth_error (skipn i l) k.
Proof.
  revert l. induction i as [|i IH]; intros l; [reflexivity|].
  destruct l as [|x l]; [now destruct k|]. apply IH.
Qed.

Lemma skipn_ascending (i : nat) (l : list Z) :
  ascending l -> ascending (skipn i l).
Proof.
  revert l. induction i as [|i IH]; intros l Hasc; [exact Hasc|].
  destruct l as [|x l]; [constructor|]. cbn [skipn]. apply IH.
  now apply StronglySorted_inv in Hasc.
Qed.

Section RepeatedTimes.
Context {F : Type} `{FloatOps F}.
Hypothesis Hsign : hours_sign F.

Lemma sweep_repeated (t0 t : Z) (k : nat) :
  forall (T : list Z) (st : state F) (evs : list event),
    ascending (t :: T) ->
    nth_error (t :: T) k = Some t ->
    nth_error (sweep t0 st evs (t :: T)) k =
    Some (report t0 t (fst (observe t st evs))).
Proof.
  induction k as [|k IH]; intros T st evs Hasc Hk; cbn [sweep].
  - destruct (observe t st evs). reflexivity.
  - destruct T as [|t2 T2]; [destruct k; discriminate|].
    assert (Ht2 : t2 = t).
    { apply StronglySorted_inv in Hasc. destruct Hasc as [Hasc Hall].
      pose proof (Forall_inv Hall) as Hle. cbv beta in Hle.
      cbn [nth_error] in Hk. apply nth_error_In in Hk.
      destruct Hk as [Hk|Hk]; [exact Hk|].
      apply StronglySorted_inv in Hasc. destruct Hasc as [_ Hall2].
      rewrite Forall_forall in Hall2. specialize (Hall2 _ Hk). lia. }
    subst t2.
    pose proof (observe_idem Hsign t st evs) as Hidem.
    destruct (observe t st evs) as [st2 evs1]. cbn [fst snd] in *.
    cbn [nth_error]. rewrite (IH T2 st2 evs1).
    + now rewrite Hidem.
    + now apply StronglySorted_inv in Hasc.
    + exact Hk.
Qed.

Lemma sweep_nth_suffix (t0 : Z) (k : nat) :
  forall (T : list Z) (st : state F) (evs : list event) (t : Z) (T2 : list Z),
    skipn k T = t :: T2 ->
    exists st' evs',
      skipn k (sweep t0 st evs T) = sweep t0 st' evs' (t :: T2).
Proof.
  induction k as [|k IH]; intros T st evs t T2 Hskip.
  - cbn [skipn] in *. subst T. now exists st, evs.
  - destruct T as [|x T]; [discriminate|]. cbn [skipn] in Hskip.
    cbn [sweep]. destruct (observe x st evs) as [st2 evs1].
    cbn [skipn]. now apply IH.
Qed.

(** An observation time listed more than once is reported once per
    listing, each time with the same row. *)
Theorem repeated_times_same_row (evs : list event) (obs : list Z) :
  evs <> [] -> obs <> [] ->
  exists sp : sample_path F,
    compute_sample_path_metrics evs obs = Ok sp /\
    forall i j t,
      nth_error (sp_T sp) i = Some t ->
      nth_error (sp_T sp) j = Some t ->
      nth_error (sp_L sp) i = nth_error (sp_L sp) j /\
      nth_error (sp_Lambda sp) i = nth_error (sp_Lambda sp) j /\
      nth_error (sp_w sp) i = nth_error (sp_w sp) j /\
      nth_error (sp_N sp) i = nth_error (sp_N sp) j /\
      nth_error (sp_A sp) i = nth_error (sp_A sp) j /\
      nth_error (sp_Arr sp) i = nth_error (sp_Arr sp) j /\
      nth_error (sp_Dep sp) i = nth_error (sp_Dep sp) j.
Proof.
  intros Hevs Hobs. unfold compute_sample_path_metrics.
  destruct evs as [|e0 evs0]; [congruence|].
  pose proof (sorted_ascending obs) as Hasc.
  destruct (sorted obs) as [|w0 T'] eqn:HT.
  { apply sorted_by_nil_iff in HT. congruence. }
  eexists. split; [reflexivity|].
  unfold of_rows. cbn [sp_T sp_L sp_Lambda sp_w sp_N sp_A sp_Arr sp_Dep].
  set (T := w0 :: T') in *.
  set (rows := sweep w0 (initial_state w0) (sorted_by ev_time (e0 :: evs0)) T).
  assert (Hrow : forall i j t,
             (i <= j)%nat ->
             nth_error T i = Some t -> nth_error T j = Some t ->
             nth_error rows i = nth_error rows j).
  { intros i j t Hij Hi Hj.
    destruct (nth_error_skipn_cons T i t Hi) as (T2 & Hskip).
    destruct (sweep_nth_suffix w0 i T (initial_state w0)
                (sorted_by ev_time (e0 :: evs0)) t T2 Hskip)
      as (st' & evs' & Hrows).
    fold rows in Hrows.
    assert (Hasc' : ascending (t :: T2)).
    { rewrite <- Hskip. now apply skipn_ascending. }
    replace j with (i + (j - i))%nat in Hj |- * by lia.
    rewrite (nth_error_plus_skipn T i (j - i)), Hskip in Hj.
    rewrite <- (Nat.add_0_r i) at 1.
    rewrite !nth_error_plus_skipn, Hrows.
    rewrite (sweep_repeated w0 t 0 T2 st' evs' Hasc' eq_refl).
    now rewrite (sweep_repeated w0 t (j - i) T2 st' evs' Hasc' Hj). }
  intros i j t Hi Hj.
  assert (Heq : nth_error rows i = nth_error rows j).
  { destruct (Nat.le_ge_cases i j) as [Hij|Hij];
      [|symmetry]; eapply Hrow; eassumption. }
  rewrite !nth_error_map, Heq. repeat split.
Qed.
End RepeatedTimes.

Lemma repeated_times_same_row_witness :
  exists sp : sample_path Q,
    compute_sample_path_metrics history_events [hour_ns; 0; hour_ns] = Ok sp /\
    forall i j t,
      nth_error (sp_T sp) i = Some t ->
      nth_error (sp_T sp) j = Some t ->
      nth_error (sp_L sp) i = nth_error (sp_L sp) j /\
      nth_error (sp_Lambda sp) i = nth_error (sp_Lambda sp) j /\
      nth_error (sp_w sp) i = nth_error (sp_w sp) j /\
      nth_error (sp_N sp) i = nth_error (sp_N sp) j /\
      nth_error (sp_A sp) i = nth_error (sp_A sp) j /\
      nth_error (sp_Arr sp) i = nth_error (sp_Arr sp) j /\
      nth_error (sp_Dep sp) i = nth_error (sp_Dep sp) j.
Proof.
  apply (repeated_times_same_row (F:=Q) Q_hours_sign history_events
           [hour_ns; 0; hour_ns]); discriminate.
Defined.
